(** * Dataset tools of the EfficientDet thesis repository

    A shallow embedding of the two data-preparation scripts,

    - [coco_to_tfrecord_converter.py]: COCO annotations to sharded
      TFRecord examples, and
    - [partition_dataset.py]: random train/test split of an image folder,

    together with the properties their specification states about them.

    Conventions of the embedding.
    - Python [int] is [Z]; [%] on integers is [Z.modulo] (both take the
      sign of the divisor).
    - Numbers read from JSON that take part in real arithmetic (box
      coordinates, areas, the test ratio) are exact rationals [Qc]:
      [float(x)] is the identity and [/] is exact division.  The rounding
      of IEEE doubles is outside the model.
    - A raised exception is the [Raise] branch of [result]; a function that
      can raise returns a [result].
    - Dictionaries are [gmap]s, Python lists are [list]s.
    - A [str] is a [string]; its characters are the 256 code points of
      [ascii].
    - Calls into libraries whose code is not part of the repository
      (file reading, SHA-256, PIL, pycocotools, protobuf serialisation,
      the random generator) are Section variables. *)

From Stdlib Require Import ZArith QArith Qcanon Qround String Ascii List.
From stdpp Require Import base numbers list gmap strings pretty.

Set Default Proof Using "Type".
Local Open Scope Z_scope.

(** ** Python in miniature: exceptions and the values that raise them *)

Module Py.

Inductive exn : Type :=
| KeyError
| ValueError
| IndexError
| ZeroDivisionError
| AxisError
| IOError
| IsADirectoryError
| FileExistsError
| FileNotFoundError
| SameFileError.

Inductive result (A : Type) : Type :=
| Ok (a : A)
| Raise (e : exn).
Arguments Ok {A} a.
Arguments Raise {A} e.

#[global] Instance result_ret : MRet result := fun _ a => Ok a.
#[global] Instance result_bind : MBind result := fun _ _ f m =>
  match m with
  | Ok a => f a
  | Raise e => Raise e
  end.

#[global] Instance result_fmap : FMap result := fun _ _ f m =>
  match m with
  | Ok a => Ok (f a)
  | Raise e => Raise e
  end.

Definition is_Ok {A} (r : result A) : Prop := ∃ a, r = Ok a.

(** [d[k]] on a dictionary. *)
Definition getitem `{Countable K} {V} (d : gmap K V) (k : K) : result V :=
  match d !! k with
  | Some v => Ok v
  | None => Raise KeyError
  end.

(** [l[i]] on a list: a negative index counts from the end. *)
Definition list_index {A} (l : list A) (i : Z) : result nat :=
  let n := Z.of_nat (length l) in
  if bool_decide (0 ≤ i < n) then Ok (Z.to_nat i)
  else if bool_decide (- n ≤ i < 0) then Ok (Z.to_nat (n + i))
  else Raise IndexError.

(** [a % b] on integers. *)
Definition mod_ (a b : Z) : result Z :=
  if bool_decide (b = 0) then Raise ZeroDivisionError else Ok (a `mod` b).

(** [a / b] with true division. *)
Definition truediv (a b : Qc) : result Qc :=
  if bool_decide (b = 0%Qc) then Raise ZeroDivisionError else Ok (a / b)%Qc.

(** An integer used in real arithmetic. *)
Definition of_int (z : Z) : Qc := Qc_of_Z z.

(** [math.ceil] *)
Definition ceil (q : Qc) : Z := Qceiling q.

Definition bytes : Type := list Byte.byte.

(** [s.encode('utf8')]: a [string] already is its sequence of bytes. *)
Definition encode_utf8 (s : string) : bytes := list_byte_of_string s.

(** [str.startswith] and [str.endswith] for a one-character argument. *)
Definition startswith_char (s : string) (c : ascii) : bool :=
  match s with
  | String c' _ => bool_decide (c' = c)
  | EmptyString => false
  end.

Fixpoint endswith_char (s : string) (c : ascii) : bool :=
  match s with
  | EmptyString => false
  | String c' EmptyString => bool_decide (c' = c)
  | String _ s' => endswith_char s' c
  end.

(** [posixpath.join(a, b)]:
[[
    if b.startswith(sep):               path = b
    elif not path or path.endswith(sep): path += b
    else:                                path += sep + b
]] *)
Definition path_join (a b : string) : string :=
  if startswith_char b "/" then b
  else if bool_decide (a = "") || endswith_char a "/" then a +:+ b
  else a +:+ "/" +:+ b.

End Py.

Import Py.

(** ** coco_to_tfrecord_converter.py *)

Module CocoToTfrecordConverter.

(** *** Data model *)

(** An entry of the document's [images] list. *)
Record image := Image {
  img_height : Z;
  img_width : Z;
  img_file_name : string;
  img_id : Z
}.

(** An entry of the document's [categories] list. *)
Record category := Category {
  cat_id : Z;
  cat_name : string
}.

(** A dense array as [mask.decode] returns it: height x width, or
    height x width x channels; entries are [uint8]. *)
Inductive ndarray : Type :=
| Array2 (a : list (list Z))
| Array3 (a : list (list (list Z))).

(** One feature of a [tf.train.Example], as built by [dataset_util]. *)
Inductive feature : Type :=
| Int64List (v : list Z)
| BytesList (v : list bytes)
| FloatList (v : list Qc).

Definition int64_feature (v : Z) : feature := Int64List [v].
Definition int64_list_feature (v : list Z) : feature := Int64List v.
Definition bytes_feature (v : bytes) : feature := BytesList [v].
Definition bytes_list_feature (v : list bytes) : feature := BytesList v.
Definition float_list_feature (v : list Qc) : feature := FloatList v.

(** [tf.train.Example(features=tf.train.Features(feature=feature_dict))] *)
Abbreviation example := (gmap string feature).

(** The lists [create_tf_example] fills while it walks the annotations. *)
Record loop_vars := LoopVars {
  xmin : list Qc;
  xmax : list Qc;
  ymin : list Qc;
  ymax : list Qc;
  is_crowd : list Z;
  category_names : list bytes;
  category_ids : list Z;
  area : list Qc;
  encoded_mask_png : list bytes;
  num_annotations_skipped : Z
}.

Definition loop_init : loop_vars :=
  LoopVars [] [] [] [] [] [] [] [] [] 0.

(** [num_annotations_skipped += 1; continue] *)
Definition skip (st : loop_vars) : loop_vars :=
  LoopVars (xmin st) (xmax st) (ymin st) (ymax st) (is_crowd st)
    (category_names st) (category_ids st) (area st) (encoded_mask_png st)
    (num_annotations_skipped st + 1).

(** [(x, y, width, height) = tuple(object_annotations['bbox'])] *)
Definition unpack_bbox (b : list Qc) : result (Qc * Qc * Qc * Qc) :=
  match b with
  | [x; y; width; height] => Ok (x, y, width, height)
  | _ => Raise ValueError
  end.

(** The two tests that guard the body of the loop, lines 113 and 116. *)
Definition degenerate (width height : Qc) : bool :=
  bool_decide (width ≤ 0)%Qc || bool_decide (height ≤ 0)%Qc.

Definition out_of_bounds (image_width image_height : Z) (x y width height : Qc) : bool :=
  bool_decide (of_int image_width < x + width)%Qc
  || bool_decide (of_int image_height < y + height)%Qc.

(** [np.amax(a, axis=2)] *)
Definition amax_list (l : list Z) : result Z :=
  match l with
  | [] => Raise ValueError
  | v :: l' => Ok (fold_left Z.max l' v)
  end.

Fixpoint mapR {A B} (f : A → result B) (l : list A) : result (list B) :=
  match l with
  | [] => Ok []
  | a :: l' => b ← f a; bs ← mapR f l'; Ok (b :: bs)
  end.

Definition amax_axis2 (a : ndarray) : result ndarray :=
  match a with
  | Array2 _ => Raise AxisError
  | Array3 rows => Array2 <$> mapR (mapR amax_list) rows
  end.

(** Collaborators outside the repository. *)
Class Collaborators := {
  (** the [segmentation] payload of an annotation and its run-length form *)
  segmentation : Type;
  rle : Type;
  (** [tf.io.gfile.GFile(path, 'rb').read()] *)
  gfile_read : string → result bytes;
  (** [PIL.Image.open] *)
  image_open : bytes → result unit;
  (** [hashlib.sha256(b).hexdigest()] *)
  sha256_hexdigest : bytes → string;
  (** [pycocotools.mask.frPyObjects] and [mask.decode] *)
  frPyObjects : segmentation → Z → Z → result rle;
  decode : rle → result ndarray;
  (** [PIL.Image.fromarray(a).save(io, format='PNG')], then [getvalue()] *)
  save_png : ndarray → result bytes;
  (** [tf_example.SerializeToString()] *)
  SerializeToString : gmap string feature → bytes
}.


Section Converter.
Context `{Collaborators}.

(** An entry of the document's [annotations] list. *)
Record annotation := Annotation {
  ann_segmentation : segmentation;
  ann_area : Qc;
  ann_iscrowd : Z;
  ann_image_id : Z;
  ann_bbox : list Qc;
  ann_category_id : Z
}.

(** Lines 129-138: the mask of one annotation. *)
Definition encode_mask (image_height image_width : Z) (a : annotation) : result bytes :=
  run_len_encoding ← frPyObjects (ann_segmentation a) image_height image_width;
  binary_mask ← decode run_len_encoding;
  binary_mask ← (if bool_decide (ann_iscrowd a = 0)
                 then amax_axis2 binary_mask
                 else Ok binary_mask);
  save_png binary_mask.

(** Lines 112-138: the body of [for object_annotations in annotations_list]. *)
Definition loop_body (image_width image_height : Z)
    (category_index : gmap Z category) (include_masks : bool)
    (st : loop_vars) (a : annotation) : result loop_vars :=
  '(x, y, width, height) ← unpack_bbox (ann_bbox a);
  if degenerate width height then Ok (skip st)
  else if out_of_bounds image_width image_height x y width height then Ok (skip st)
  else
    vxmin ← truediv x (of_int image_width);
    vxmax ← truediv (x + width)%Qc (of_int image_width);
    vymin ← truediv y (of_int image_height);
    vymax ← truediv (y + height)%Qc (of_int image_height);
    let category_id := ann_category_id a in
    cat ← getitem category_index category_id;
    masks ← (if include_masks
             then m ← encode_mask image_height image_width a;
                  Ok (encoded_mask_png st ++ [m])
             else Ok (encoded_mask_png st));
    Ok (LoopVars (xmin st ++ [vxmin]) (xmax st ++ [vxmax])
          (ymin st ++ [vymin]) (ymax st ++ [vymax])
          (is_crowd st ++ [ann_iscrowd a])
          (category_names st ++ [encode_utf8 (cat_name cat)])
          (category_ids st ++ [category_id])
          (area st ++ [ann_area a])
          masks
          (num_annotations_skipped st)).

(** [for object_annotations in annotations_list: ...] *)
Fixpoint annotations_loop (image_width image_height : Z)
    (category_index : gmap Z category) (include_masks : bool)
    (st : loop_vars) (annotations_list : list annotation) : result loop_vars :=
  match annotations_list with
  | [] => Ok st
  | a :: rest =>
      st' ← loop_body image_width image_height category_index include_masks st a;
      annotations_loop image_width image_height category_index include_masks st' rest
  end.

(** Lines 139-171: the feature dictionary. *)
Definition feature_dict (im : image) (key : string) (encoded_jpg : bytes)
    (include_masks : bool) (st : loop_vars) : example :=
  let d : example :=
    <["image/object/area" := float_list_feature (area st)]>
    (<["image/object/is_crowd" := int64_list_feature (is_crowd st)]>
    (<["image/object/class/text" := bytes_list_feature (category_names st)]>
    (<["image/object/bbox/ymax" := float_list_feature (ymax st)]>
    (<["image/object/bbox/ymin" := float_list_feature (ymin st)]>
    (<["image/object/bbox/xmax" := float_list_feature (xmax st)]>
    (<["image/object/bbox/xmin" := float_list_feature (xmin st)]>
    (<["image/format" := bytes_feature (encode_utf8 "jpeg")]>
    (<["image/encoded" := bytes_feature encoded_jpg]>
    (<["image/key/sha256" := bytes_feature (encode_utf8 key)]>
    (<["image/source_id" := bytes_feature (encode_utf8 (pretty (img_id im)))]>
    (<["image/filename" := bytes_feature (encode_utf8 (img_file_name im))]>
    (<["image/width" := int64_feature (img_width im)]>
    (<["image/height" := int64_feature (img_height im)]> ∅)))))))))))))
  in
  if include_masks
  then <["image/object/mask" := bytes_list_feature (encoded_mask_png st)]> d
  else d.

Definition create_tf_example (im : image) (annotations_list : list annotation)
    (image_dir : string) (category_index : gmap Z category)
    (include_masks : bool) : result (string * example * Z) :=
  let image_height := img_height im in
  let image_width := img_width im in
  let filename := img_file_name im in
  let full_path := path_join image_dir filename in
  encoded_jpg ← gfile_read full_path;
  _ ← image_open encoded_jpg;
  let key := sha256_hexdigest encoded_jpg in
  st ← annotations_loop image_width image_height category_index include_masks
         loop_init annotations_list;
  Ok (key, feature_dict im key encoded_jpg include_masks st,
      num_annotations_skipped st).

(** The parsed annotation document; a missing top-level key is [None]. *)
Record groundtruth := Groundtruth {
  gt_images : option (list image);
  gt_annotations : option (list annotation);
  gt_categories : option (list category)
}.

Definition getkey {A} (field : option A) : result A :=
  match field with
  | Some v => Ok v
  | None => Raise KeyError
  end.

(** [label_map_util.create_category_index]: a dictionary keyed by the
    [id] of each category, a later entry replacing an earlier one. *)
Definition create_category_index (categories : list category) : gmap Z category :=
  fold_left (fun d cat => <[cat_id cat := cat]> d) categories ∅.

(** Modelled from the spec: [tf_record_creation_util.open_sharded_output_tfrecords]
    (object_detection library, not under src/) "opens [num_shards] output
    handles"; a handle is the list of the records written to it so far. *)
Definition open_sharded_output_tfrecords (num_shards : Z) : list (list bytes) :=
  replicate (Z.to_nat num_shards) [].

(** Lines 203-207: group the annotations by image. *)
Definition index_annotation (annotations_index : gmap Z (list annotation))
    (a : annotation) : gmap Z (list annotation) :=
  let image_id := ann_image_id a in
  let annotations_index :=
    match annotations_index !! image_id with
    | None => <[image_id := []]> annotations_index
    | Some _ => annotations_index
    end in
  alter (fun l => l ++ [a]) image_id annotations_index.

(** Lines 210-214: images without annotations get the empty list. *)
Definition index_image (acc : Z * gmap Z (list annotation)) (im : image)
    : Z * gmap Z (list annotation) :=
  let '(missing_annotation_count, annotations_index) := acc in
  match annotations_index !! img_id im with
  | None => (missing_annotation_count + 1, <[img_id im := []]> annotations_index)
  | Some _ => (missing_annotation_count, annotations_index)
  end.

(** [output_tfrecords[shard_idx].write(record)] *)
Definition shard_write (output_tfrecords : list (list bytes)) (shard_idx : Z)
    (record : bytes) : result (list (list bytes)) :=
  i ← list_index output_tfrecords shard_idx;
  Ok (alter (fun w => w ++ [record]) i output_tfrecords).

(** Lines 220-228: [for idx, image in enumerate(images)], started at [idx]. *)
Fixpoint images_loop (annotations_index : gmap Z (list annotation))
    (image_dir : string) (category_index : gmap Z category)
    (include_masks : bool) (num_shards : Z)
    (idx : Z) (total_num_annotations_skipped : Z)
    (output_tfrecords : list (list bytes))
    (images : list image) : result (list (list bytes) * Z) :=
  match images with
  | [] => Ok (output_tfrecords, total_num_annotations_skipped)
  | im :: rest =>
      annotations_list ← getitem annotations_index (img_id im);
      '(_, tf_example, num_skipped) ←
        create_tf_example im annotations_list image_dir category_index include_masks;
      let total_num_annotations_skipped := total_num_annotations_skipped + num_skipped in
      shard_idx ← mod_ idx num_shards;
      output_tfrecords ←
        shard_write output_tfrecords shard_idx (SerializeToString tf_example);
      images_loop annotations_index image_dir category_index include_masks
        num_shards (idx + 1) total_num_annotations_skipped output_tfrecords rest
  end.

(** [_create_tf_record_from_coco_annotations], on the parsed document.
    The result is the content of the shards, with the two counters the
    function logs. *)
Definition _create_tf_record_from_coco_annotations (groundtruth_data : groundtruth)
    (image_dir : string) (include_masks : bool) (num_shards : Z)
    : result (list (list bytes) * Z * Z) :=
  let output_tfrecords := open_sharded_output_tfrecords num_shards in
  images ← getkey (gt_images groundtruth_data);
  categories ← getkey (gt_categories groundtruth_data);
  let category_index := create_category_index categories in
  annotations ← getkey (gt_annotations groundtruth_data);
  let annotations_index := fold_left index_annotation annotations ∅ in
  let '(missing_annotation_count, annotations_index) :=
    fold_left index_image images (0, annotations_index) in
  '(output_tfrecords, total_num_annotations_skipped) ←
    images_loop annotations_index image_dir category_index include_masks
      num_shards 0 0 output_tfrecords images;
  Ok (output_tfrecords, missing_annotation_count, total_num_annotations_skipped).

(** *** Vocabulary of the specification *)

(** A box the loop refuses: degenerate, or reaching beyond the image. *)
Definition rejected (image_width image_height : Z) (a : annotation) : Prop :=
  match ann_bbox a with
  | [x; y; width; height] =>
      (width ≤ 0 ∨ height ≤ 0
       ∨ of_int image_width < x + width ∨ of_int image_height < y + height)%Qc
  | _ => False
  end.

(** A box that passes validation. *)
Definition accepted (image_width image_height : Z) (a : annotation) : Prop :=
  match ann_bbox a with
  | [x; y; width; height] =>
      (0 < width ∧ 0 < height
       ∧ x + width ≤ of_int image_width ∧ y + height ≤ of_int image_height)%Qc
  | _ => False
  end.

#[global] Instance rejected_dec W Hh a : Decision (rejected W Hh a).
Proof.
  unfold rejected. destruct (ann_bbox a) as [|x [|y [|w [|h [|? ?]]]]]; apply _.
Defined.

#[global] Instance accepted_dec W Hh a : Decision (accepted W Hh a).
Proof.
  unfold accepted. destruct (ann_bbox a) as [|x [|y [|w [|h [|? ?]]]]]; apply _.
Defined.

(** The four normalised coordinates of a box [x, y, width, height]. *)
Definition norm_xmin (image_width : Z) (x : Qc) : Qc := (x / of_int image_width)%Qc.
Definition norm_xmax (image_width : Z) (x width : Qc) : Qc :=
  ((x + width) / of_int image_width)%Qc.
Definition norm_ymin (image_height : Z) (y : Qc) : Qc := (y / of_int image_height)%Qc.
Definition norm_ymax (image_height : Z) (y height : Qc) : Qc :=
  ((y + height) / of_int image_height)%Qc.

Definition bbox_x (a : annotation) : Qc := default 0%Qc (ann_bbox a !! 0%nat).
Definition bbox_y (a : annotation) : Qc := default 0%Qc (ann_bbox a !! 1%nat).
Definition bbox_width (a : annotation) : Qc := default 0%Qc (ann_bbox a !! 2%nat).
Definition bbox_height (a : annotation) : Qc := default 0%Qc (ann_bbox a !! 3%nat).

(** Reading a record back. *)
Definition floats (ex : example) (key : string) : option (list Qc) :=
  match ex !! key with
  | Some (FloatList v) => Some v
  | _ => None
  end.

Definition ints (ex : example) (key : string) : option (list Z) :=
  match ex !! key with
  | Some (Int64List v) => Some v
  | _ => None
  end.

Definition byteses (ex : example) (key : string) : option (list bytes) :=
  match ex !! key with
  | Some (BytesList v) => Some v
  | _ => None
  end.


(** The append branch of the loop body, given the category name and the
    mask list it arrives at. *)
Definition pushed (image_width image_height : Z) (st : loop_vars)
    (a : annotation) (name : bytes) (masks : list bytes) : loop_vars :=
  LoopVars (xmin st ++ [norm_xmin image_width (bbox_x a)])
    (xmax st ++ [norm_xmax image_width (bbox_x a) (bbox_width a)])
    (ymin st ++ [norm_ymin image_height (bbox_y a)])
    (ymax st ++ [norm_ymax image_height (bbox_y a) (bbox_height a)])
    (is_crowd st ++ [ann_iscrowd a])
    (category_names st ++ [name])
    (category_ids st ++ [ann_category_id a])
    (area st ++ [ann_area a])
    masks
    (num_annotations_skipped st).

(** What the loop has added to its lists once it has walked [anns]. *)
Record loop_post (image_width image_height : Z) (include_masks : bool)
    (anns : list annotation) (st st' : loop_vars) : Prop := LoopPost {
  post_xmin : xmin st' = xmin st
      ++ ((fun a => norm_xmin image_width (bbox_x a))
              <$> filter (accepted image_width image_height) anns);
  post_xmax : xmax st' = xmax st
      ++ ((fun a => norm_xmax image_width (bbox_x a) (bbox_width a))
              <$> filter (accepted image_width image_height) anns);
  post_ymin : ymin st' = ymin st
      ++ ((fun a => norm_ymin image_height (bbox_y a))
              <$> filter (accepted image_width image_height) anns);
  post_ymax : ymax st' = ymax st
      ++ ((fun a => norm_ymax image_height (bbox_y a) (bbox_height a))
              <$> filter (accepted image_width image_height) anns);
  post_is_crowd : is_crowd st' = is_crowd st
      ++ (ann_iscrowd <$> filter (accepted image_width image_height) anns);
  post_category_ids : category_ids st' = category_ids st
      ++ (ann_category_id <$> filter (accepted image_width image_height) anns);
  post_area : area st' = area st
      ++ (ann_area <$> filter (accepted image_width image_height) anns);
  post_category_names : length (category_names st') =
      (length (category_names st)
       + length (filter (accepted image_width image_height) anns))%nat;
  post_masks : length (encoded_mask_png st') =
      (length (encoded_mask_png st)
       + if include_masks
         then length (filter (accepted image_width image_height) anns)
         else 0)%nat;
  post_skipped : num_annotations_skipped st' =
      num_annotations_skipped st
      + Z.of_nat (length (filter (rejected image_width image_height) anns))
}.

(** Inputs on which [create_tf_example] raises nothing: the image file is
    there and decodes, the image has a positive size, every box has four
    entries, and each accepted annotation names a known category and,
    when masks are asked for, has a segmentation that decodes. *)
Definition well_formed_input (im : image) (anns : list annotation)
    (image_dir : string) (category_index : gmap Z category)
    (include_masks : bool) : Prop :=
  (∃ encoded_jpg, gfile_read (path_join image_dir (img_file_name im)) = Ok encoded_jpg
                  ∧ is_Ok (image_open encoded_jpg))
  ∧ 0 < img_width im ∧ 0 < img_height im
  ∧ Forall (fun a =>
       length (ann_bbox a) = 4%nat
       ∧ (accepted (img_width im) (img_height im) a →
            is_Some (category_index !! ann_category_id a)
            ∧ (include_masks = true →
                 is_Ok (encode_mask (img_height im) (img_width im) a)))) anns.

(** The serialised record of one image, as the main loop builds it. *)
Definition record_of (annotations_index : gmap Z (list annotation))
    (image_dir : string) (category_index : gmap Z category)
    (include_masks : bool) (im : image) : result bytes :=
  annotations_list ← getitem annotations_index (img_id im);
  '(_, tf_example, _) ←
    create_tf_example im annotations_list image_dir category_index include_masks;
  Ok (SerializeToString tf_example).

(** Round-robin filling of [s] shards: shard [j] holds the records number
    [j], [j + s], [j + 2 s], ... in that order. *)
Definition round_robin (s : nat) (records : list bytes)
    (shards : list (list bytes)) : Prop :=
  length shards = s
  ∧ ∀ j shard, shards !! j = Some shard →
      ∀ q, shard !! q = records !! (q * s + j)%nat.

End Converter.

(** *** A small world to run the converter in *)

(** Three image files on disk; a segmentation is its own decoded channel
    array; a PNG is the row-major dump of the pixels; a serialised record
    is the file name it carries. *)
Definition demo_collaborators : Collaborators := {|
  segmentation := list (list (list Z));
  rle := list (list (list Z));
  gfile_read := fun path =>
    if bool_decide (path ∈ ["images/cat.jpg"; "images/dog.jpg"; "images/owl.jpg"])
    then Ok [Byte.xff; Byte.xd8]
    else Raise IOError;
  image_open := fun _ => Ok ();
  sha256_hexdigest := fun _ => "c0ffee";
  frPyObjects := fun seg _ _ => Ok seg;
  decode := fun r => Ok (Array3 r);
  save_png := fun a =>
    match a with
    | Array2 rows =>
        Ok ((fun v => default Byte.x00 (Byte.of_N (Z.to_N v))) <$> concat rows)
    | Array3 _ => Raise ValueError
    end;
  SerializeToString := fun ex =>
    match ex !! "image/filename" with
    | Some (BytesList [b]) => b
    | _ => []
    end
|}.

Definition demo_image : image := Image 100 100 "cat.jpg" 7.

Definition demo_category_index : gmap Z category :=
  create_category_index [Category 1 "cat"].

Definition demo_annotation (crowd : Z) (x y width height : Z)
    : @annotation demo_collaborators :=
  @Annotation demo_collaborators
    [[[0; 1]; [0; 0]]; [[1; 1]; [1; 0]]]
    (Qc_of_Z (width * height)) crowd 7
    [Qc_of_Z x; Qc_of_Z y; Qc_of_Z width; Qc_of_Z height] 1.

(** A box inside the image, a degenerate one, one that leaves the image,
    and again a good one. *)
Definition demo_annotations : list (@annotation demo_collaborators) :=
  [demo_annotation 0 10 20 30 40;
   demo_annotation 0 5 5 0 10;
   demo_annotation 0 90 90 20 20;
   demo_annotation 0 0 0 100 100].

Definition demo_create_tf_example (include_masks : bool)
    : result (string * example * Z) :=
  @create_tf_example demo_collaborators demo_image demo_annotations
    "images" demo_category_index include_masks.


(** Three images for ten or two shards. *)
Definition demo_groundtruth : @groundtruth demo_collaborators :=
  @Groundtruth demo_collaborators
    (Some [Image 100 100 "cat.jpg" 7; Image 100 100 "dog.jpg" 8;
           Image 100 100 "owl.jpg" 9])
    (Some demo_annotations)
    (Some [Category 1 "cat"]).

(** *** The command line, lines 232-275 *)

(** The value of [args.include_masks]: the default [True], or the string
    given on the command line (the option declares no [type]). *)
Inductive flag_value : Type :=
| FlagDefault
| FlagGiven (s : string).

(** [if include_masks:] on such a value. *)
Definition truthy (v : flag_value) : bool :=
  match v with
  | FlagDefault => true
  | FlagGiven s => negb (bool_decide (s = EmptyString))
  end.

Record arguments := Arguments_ {
  arg_include_masks : flag_value;
  arg_train_image_dir : string;
  arg_val_image_dir : string;
  arg_train_annotations_file : string;
  arg_val_annotations_file : string;
  arg_output_dir : string
}.

(** What [main] needs beyond the collaborators of the converter. *)
Class MainCollaborators := {
  main_base :: Collaborators;
  (** [json.load] on [tf.io.gfile.GFile(annotations_file, 'r')] *)
  json_load : string → result groundtruth;
  (** [tf.io.gfile.isdir] and [tf.io.gfile.makedirs] *)
  gfile_isdir : string → bool;
  gfile_makedirs : string → result unit
}.

Section Main.
Context `{MainCollaborators}.

(** [_create_tf_record_from_coco_annotations] from the annotation file:
    the shards written under [output_path]. *)
Definition convert_file (annotations_file image_dir output_path : string)
    (include_masks : bool) (num_shards : Z)
    : result (string * list (list bytes)) :=
  groundtruth_data ← json_load annotations_file;
  '(output_tfrecords, _, _) ←
    _create_tf_record_from_coco_annotations groundtruth_data image_dir
      include_masks num_shards;
  Ok (output_path, output_tfrecords).

Definition main (args : arguments)
    : result ((string * list (list bytes)) * (string * list (list bytes))) :=
  _ ← (if negb (gfile_isdir (arg_output_dir args))
       then gfile_makedirs (arg_output_dir args)
       else Ok ());
  let train_output_path := path_join (arg_output_dir args) "coco_train.record" in
  let val_output_path := path_join (arg_output_dir args) "coco_val.record" in
  train ← convert_file (arg_train_annotations_file args) (arg_train_image_dir args)
             train_output_path (truthy (arg_include_masks args)) 10;
  val ← convert_file (arg_val_annotations_file args) (arg_val_image_dir args)
           val_output_path (truthy (arg_include_masks args)) 10;
  Ok (train, val).

End Main.

(** The demo world with one annotation file for both splits. *)
Definition demo_main_collaborators : MainCollaborators := {|
  main_base := demo_collaborators;
  json_load := fun path =>
    if bool_decide (path = "annotations.json")
    then Ok demo_groundtruth
    else Raise IOError;
  gfile_isdir := fun _ => true;
  gfile_makedirs := fun _ => Ok ()
|}.

Definition demo_arguments (include_masks : flag_value) : arguments :=
  Arguments_ include_masks "images" "images"
    "annotations.json" "annotations.json" "/tmp/".

End CocoToTfrecordConverter.

(** ** Python's [re], as far as partition_dataset.py uses it *)

Module Re.

(** An item of a bracketed character set. *)
Inductive set_item : Type :=
| Range (lo hi : ascii)   (* [lo-hi] *)
| One (c : ascii)         (* a literal or escaped character *)
| Space.                  (* [\s] *)

Inductive regex : Type :=
| CharSet (items : list set_item)   (* [[...]] *)
| Dot                               (* [.] *)
| Chr (c : ascii)                   (* a literal character *)
| Seq (r1 r2 : regex)               (* [r1 r2] *)
| Alt (r1 r2 : regex)               (* [r1|r2] *)
| Plus (r : regex)                  (* [r+] *)
| Eol                               (* [$] *)
| Eps.                              (* the empty pattern *)

Definition code (c : ascii) : N := N_of_ascii c.

(** [\s] on the code points below 256: [str.isspace]. *)
Definition is_space (c : ascii) : bool :=
  let n := code c in
  ((9 <=? n) && (n <=? 13) || (28 <=? n) && (n <=? 32)
   || (n =? 133) || (n =? 160))%N.

Definition item_matches (c : ascii) (i : set_item) : bool :=
  match i with
  | Range lo hi => ((code lo <=? code c) && (code c <=? code hi))%N
  | One c' => bool_decide (c = c')
  | Space => is_space c
  end.

Definition in_set (items : list set_item) (c : ascii) : bool :=
  existsb (item_matches c) items.

Definition newline : ascii := "010"%char.

(** [$] holds at the end of the string and just before a final newline. *)
Definition at_eol (s : string) : bool :=
  match s with
  | EmptyString => true
  | String c EmptyString => bool_decide (c = newline)
  | _ => false
  end.

(** The rounds of a repetition [r+], with [m] the matcher of [r]: one
    round, then either the rest of the pattern or, fuel permitting,
    another round. *)
Definition plus_rounds (m : string → (string → bool) → bool) (k : string → bool)
    : nat → string → bool :=
  fix rounds (n : nat) (s : string) {struct n} : bool :=
    m s (fun s' =>
      k s' || match n with
              | O => false
              | S n' => rounds n' s'
              end).

(** [matches r s k]: some match of [r] at the start of [s] leaves a rest
    that [k] accepts.  A repetition gets [length s] rounds of fuel beyond
    the first: a round that consumes nothing adds nothing. *)
Fixpoint matches (r : regex) (s : string) (k : string → bool) {struct r} : bool :=
  match r with
  | CharSet items =>
      match s with
      | String c s' => in_set items c && k s'
      | EmptyString => false
      end
  | Dot =>
      match s with
      | String c s' => negb (bool_decide (c = newline)) && k s'
      | EmptyString => false
      end
  | Chr c' =>
      match s with
      | String c s' => bool_decide (c = c') && k s'
      | EmptyString => false
      end
  | Seq r1 r2 => matches r1 s (fun s' => matches r2 s' k)
  | Alt r1 r2 => matches r1 s k || matches r2 s k
  | Plus r' => plus_rounds (matches r') k (String.length s) s
  | Eol => at_eol s && k s
  | Eps => k s
  end.

(** [bool(re.search(r, s))]: a match starting at some position of [s]. *)
Fixpoint search (r : regex) (s : string) : bool :=
  matches r s (fun _ => true)
  || match s with
     | String _ s' => search r s'
     | EmptyString => false
     end.


Fixpoint literal (s : string) : regex :=
  match s with
  | EmptyString => Eps
  | String c EmptyString => Chr c
  | String c s' => Seq (Chr c) (literal s')
  end.

End Re.

(** ** partition_dataset.py *)

Module PartitionDataset.

Import Re.

(** *** Paths *)

Definition sep : ascii := "/"%char.
Definition extsep : ascii := "."%char.

(** [c in s] *)
Fixpoint contains (c : ascii) (s : string) : bool :=
  match s with
  | EmptyString => false
  | String c' s' => bool_decide (c' = c) || contains c s'
  end.

(** [s == c * len(s)] *)
Fixpoint all_char (c : ascii) (s : string) : bool :=
  match s with
  | EmptyString => true
  | String c' s' => bool_decide (c' = c) && all_char c s'
  end.

(** [s.rstrip(c)] *)
Fixpoint rstrip (c : ascii) (s : string) : string :=
  match s with
  | EmptyString => EmptyString
  | String c' s' =>
      match rstrip c s' with
      | EmptyString => if bool_decide (c' = c) then EmptyString else String c' EmptyString
      | r => String c' r
      end
  end.

(** [p[:p.rfind(c) + 1]]: everything up to and including the last [c]. *)
Fixpoint upto_last (c : ascii) (p : string) : string :=
  match p with
  | EmptyString => EmptyString
  | String c' p' => if contains c p then String c' (upto_last c p') else EmptyString
  end.

(** [p[p.rfind(c) + 1:]]: everything after the last [c]. *)
Fixpoint after_last (c : ascii) (p : string) : string :=
  match p with
  | EmptyString => EmptyString
  | String c' p' => if contains c p then after_last c p' else p
  end.

(** [posixpath.dirname]:
[[
    i = p.rfind(sep) + 1
    head = p[:i]
    if head and head != sep*len(head):
        head = head.rstrip(sep)
    return head
]] *)
Definition dirname (p : string) : string :=
  let head := upto_last sep p in
  if negb (bool_decide (head = "")) && negb (all_char sep head)
  then rstrip sep head
  else head.

(** [p[:p.rfind(c)]]: everything before the last [c] ([p] holds a [c]). *)
Fixpoint before_last (c : ascii) (p : string) : string :=
  match p with
  | EmptyString => EmptyString
  | String c' p' => if contains c p' then String c' (before_last c p') else EmptyString
  end.

(** [posixpath.splitext(p)[0]]: the extension starts at the last dot of
    the last path component, unless only dots come before it there. *)
Definition splitext_root (p : string) : string :=
  let base := after_last sep p in
  if contains extsep base && negb (all_char extsep (before_last extsep base))
  then before_last extsep p
  else p.

(** *** The file system *)

(** Paths are compared as strings.  [listing] is what [os.listdir]
    returns for a directory; the script lists one directory, once, before
    it writes anything. *)
Record fs := Fs {
  dirs : gset string;
  files : gmap string bytes;
  listing : gmap string (list string)
}.

(** [os.path.exists] *)
Definition exists_ (p : string) (s : fs) : bool :=
  bool_decide (p ∈ dirs s) || bool_decide (is_Some (files s !! p)).

(** The chain of directories [os.makedirs] creates: the path, its parent,
    and so on up. *)
Fixpoint ancestors (fuel : nat) (p : string) : list string :=
  match fuel with
  | O => []
  | S fuel' =>
      if bool_decide (p = "") || all_char sep p then []
      else p :: ancestors fuel' (dirname p)
  end.

(** [os.makedirs(p)], with [exist_ok=False]. *)
Definition makedirs (p : string) (s : fs) : result fs :=
  if exists_ p s then Raise FileExistsError
  else Ok (Fs (list_to_set (ancestors (String.length p) p) ∪ dirs s)
              (files s) (listing s)).

(** [os.listdir] *)
Definition listdir (d : string) (s : fs) : result (list string) :=
  getitem (listing s) d.

(** The directory a new file is created in has to be there; the current
    directory and the root are. *)
Definition parent_exists (p : string) (s : fs) : bool :=
  let d := dirname p in
  bool_decide (d = "") || all_char sep d || bool_decide (d ∈ dirs s).

(** [shutil.copyfile(src, dst)] *)
Definition copyfile (src dst : string) (s : fs) : result fs :=
  if bool_decide (src ∈ dirs s) then Raise IsADirectoryError
  else
    match files s !! src with
    | None => Raise FileNotFoundError
    | Some content =>
        if bool_decide (src = dst) then Raise SameFileError
        else if bool_decide (dst ∈ dirs s) then Raise IsADirectoryError
        else if parent_exists dst s
        then Ok (Fs (dirs s) (<[dst := content]> (files s)) (listing s))
        else Raise FileNotFoundError
    end.

(** *** The random generator *)

(** [random.randint(a, b)] draws from [a..b]; the generator carries its
    state from one call to the next. *)
Class Random := {
  rng : Type;
  randint_draw : Z → Z → rng → Z * rng;
  randint_range : ∀ a b g, a ≤ b → a ≤ (randint_draw a b g).1 ≤ b
}.

(** *** The script *)

(** [r'([A-Za-z0-9\s_\\\.:]+)(.jpg|.jpeg|.png)$'] *)
Definition name_chars : list set_item :=
  [Range "A" "Z"; Range "a" "z"; Range "0" "9"; Space;
   One "_"; One "\"; One "."; One ":"].

Definition image_pattern : regex :=
  Seq (Plus (CharSet name_chars))
      (Seq (Alt (Alt (Seq Dot (literal "jpg")) (Seq Dot (literal "jpeg")))
                (Seq Dot (literal "png")))
           Eol).

(** The test of line 24. *)
Definition is_image (f : string) : bool := search image_pattern f.





(** [list.remove(x)]: drop the first element equal to [x]. *)
Fixpoint list_remove_first (x : string) (l : list string) : result (list string) :=
  match l with
  | [] => Raise ValueError
  | y :: l' =>
      if bool_decide (y = x) then Ok l'
      else l'' ← list_remove_first x l'; Ok (y :: l'')
  end.

Section Script.
Context `{Random}.

(** [random.randint(a, b)] *)
Definition randint (a b : Z) (g : rng) : result (Z * rng) :=
  if bool_decide (a ≤ b) then Ok (randint_draw a b g) else Raise ValueError.

(** Lines 19-22. *)
Definition make_dirs (train_dir test_dir : string) (s : fs) : result fs :=
  s ← (if exists_ train_dir s then makedirs train_dir s else Ok s);
  if exists_ test_dir s then makedirs test_dir s else Ok s.

(** Lines 29-35: the body of [for i in range(num_test_images)]. *)
Definition test_body (source_dir test_dir : string) (cop_xml : bool)
    (st : fs * rng * list string) : result (fs * rng * list string) :=
  let '(s, g, images) := st in
  '(idx, g) ← randint 0 (Z.of_nat (length images) - 1) g;
  i ← list_index images idx;
  filename ← (match images !! i with Some f => Ok f | None => Raise IndexError end);
  s ← copyfile (path_join source_dir filename) (path_join test_dir filename) s;
  s ← (if cop_xml
       then let xml_filename := splitext_root filename +:+ ".xml" in
            copyfile (path_join source_dir xml_filename)
                     (path_join test_dir xml_filename) s
       else Ok s);
  images ← list_remove_first filename images;
  Ok (s, g, images).

Fixpoint test_loop (source_dir test_dir : string) (cop_xml : bool)
    (n : nat) (st : fs * rng * list string) : result (fs * rng * list string) :=
  match n with
  | O => Ok st
  | S n' =>
      st ← test_body source_dir test_dir cop_xml st;
      test_loop source_dir test_dir cop_xml n' st
  end.

(** Lines 38-42: the body of [for filename in images]. *)
Definition train_body (source_dir des_dir train_dir : string) (cop_xml : bool)
    (s : fs) (filename : string) : result fs :=
  s ← copyfile (path_join source_dir filename) (path_join train_dir filename) s;
  if cop_xml
  then let xml_filename := splitext_root filename +:+ "xml" in
       copyfile (path_join source_dir xml_filename)
                (path_join des_dir xml_filename) s
  else Ok s.

Fixpoint train_loop (source_dir des_dir train_dir : string) (cop_xml : bool)
    (s : fs) (images : list string) : result fs :=
  match images with
  | [] => Ok s
  | filename :: rest =>
      s ← train_body source_dir des_dir train_dir cop_xml s filename;
      train_loop source_dir des_dir train_dir cop_xml s rest
  end.

(** Lines 24-42: list, draw the test images, copy the rest. *)
Definition partition (source_dir des_dir train_dir test_dir : string)
    (ratio : Qc) (cop_xml : bool) (s : fs) (g : rng) : result (fs * rng) :=
  names ← listdir source_dir s;
  let images := filter (fun f => is_image f = true) names in
  let num_images := Z.of_nat (length images) in
  let num_test_images := ceil (ratio * of_int num_images)%Qc in
  '(s, g, images) ←
    test_loop source_dir test_dir cop_xml (Z.to_nat num_test_images) (s, g, images);
  s ← train_loop source_dir des_dir train_dir cop_xml s images;
  Ok (s, g).

Definition iterate_dir (source_dir des_dir : string) (ratio : Qc) (cop_xml : bool)
    (s : fs) (g : rng) : result (fs * rng) :=
  let train_dir := path_join des_dir "train" in
  let test_dir := path_join des_dir "test" in
  s ← make_dirs train_dir test_dir s;
  partition source_dir des_dir train_dir test_dir ratio cop_xml s g.

End Script.

(** *** Vocabulary of the specification *)

(** Copy the files named [names] from [source_dir] to [dst_dir], one after
    the other. *)
Fixpoint copy_loop (source_dir dst_dir : string) (s : fs) (names : list string)
    : result fs :=
  match names with
  | [] => Ok s
  | filename :: rest =>
      s ← copyfile (path_join source_dir filename) (path_join dst_dir filename) s;
      copy_loop source_dir dst_dir s rest
  end.

(** [copyfile] of [filename] from [source_dir] to [dst_dir] has what it
    needs: the source is a file, the destination is another path, not a
    directory, and lies in a directory that is there. *)
Definition copy_ready (source_dir dst_dir : string) (s : fs) (filename : string)
    : bool :=
  let src := path_join source_dir filename in
  let dst := path_join dst_dir filename in
  negb (bool_decide (src ∈ dirs s))
  && bool_decide (is_Some (files s !! src))
  && negb (bool_decide (src = dst))
  && negb (bool_decide (dst ∈ dirs s))
  && parent_exists dst s.

(** [s'] has the directories of [s] and at least its files. *)
Definition fs_extends (s s' : fs) : Prop :=
  dirs s' = dirs s ∧ ∀ p, is_Some (files s !! p) → is_Some (files s' !! p).

(** *** A small world to run the script in *)

(** A generator that counts: the n-th draw from [a..b] is
    [a + n mod (b - a + 1)]. *)
Program Definition demo_random : Random := {|
  rng := nat;
  randint_draw := fun a b g => (a + Z.of_nat g `mod` (b - a + 1), S g)
|}.
Next Obligation.
  intros a b g Hab. simpl.
  pose proof (Z.mod_pos_bound (Z.of_nat g) (b - a + 1)). lia.
Qed.

Definition demo_files : gmap string bytes :=
  list_to_map
    [("src/a.jpg", [Byte.x01]); ("src/a.xml", [Byte.x02]); ("src/axml", [Byte.x03]);
     ("src/b.jpg", [Byte.x04]); ("src/c.png", [Byte.x05]);
     ("src/notes.txt", [Byte.x06])].

Definition demo_listing : gmap string (list string) :=
  {[ "src" := ["a.jpg"; "a.xml"; "axml"; "b.jpg"; "c.png"; "notes.txt"] ]}.

(** The output folder is there, its [train] and [test] folders are not. *)
Definition demo_fs : fs :=
  Fs {[ "src"; "out" ]} demo_files demo_listing.

(** Both are there. *)
Definition demo_fs_with_dirs : fs :=
  Fs {[ "src"; "out"; "out/train"; "out/test" ]} demo_files demo_listing.

End PartitionDataset.

(** * Proofs *)

Module PyFacts.

Lemma bind_Ok {A B} (m : result A) (f : A → result B) (b : B) :
  m ≫= f = Ok b ↔ ∃ v, m = Ok v ∧ f v = Ok b.
Proof.
  destruct m as [v|e]; simpl; split.
  - eauto.
  - by intros (? & [= ->] & ?).
  - done.
  - by intros (? & ? & ?).
Qed.


Lemma truediv_Ok (p q r : Qc) : truediv p q = Ok r ↔ q ≠ 0%Qc ∧ r = (p / q)%Qc.
Proof.
  unfold truediv. case_bool_decide as Hq; split.
  - done.
  - by intros [? _].
  - by intros [= <-].
  - by intros [_ ->].
Qed.

Lemma of_int_pos (z : Z) : 0 < z → (0 < of_int z)%Qc.
Proof.
  intros Hz. unfold of_int. rewrite <- Z2Qc_inj_0.
  by apply (proj1 (Z2Qc_inj_lt 0 z)).
Qed.

Lemma of_int_nonzero (z : Z) : 0 < z → of_int z ≠ 0%Qc.
Proof.
  intros Hz Heq. pose proof (of_int_pos z Hz) as Hp. rewrite Heq in Hp.
  by apply (irreflexivity Qclt) in Hp.
Qed.

Lemma getitem_Ok `{Countable K} {V} (d : gmap K V) (k : K) (v : V) :
  getitem d k = Ok v ↔ d !! k = Some v.
Proof. unfold getitem. destruct (d !! k); naive_solver. Qed.

End PyFacts.

Module ConverterProofs.
Import CocoToTfrecordConverter PyFacts.

Section Facts.
Context `{Collaborators}.
Implicit Types (st : loop_vars) (a : annotation).

Lemma rejected_guards W Hh a x y w h :
  ann_bbox a = [x; y; w; h] →
  rejected W Hh a ↔ degenerate w h || out_of_bounds W Hh x y w h = true.
Proof.
  intros Hb. unfold rejected, degenerate, out_of_bounds. rewrite Hb.
  rewrite !orb_true_iff, !bool_decide_eq_true. tauto.
Qed.

Lemma accepted_not_rejected W Hh a :
  length (ann_bbox a) = 4%nat →
  accepted W Hh a ↔ ¬ rejected W Hh a.
Proof.
  unfold accepted, rejected.
  destruct (ann_bbox a) as [|x [|y [|w [|h [|? ?]]]]]; try done. intros _.
  rewrite !Qclt_nge. split; [tauto|]. intros Hn.
  destruct (decide (x + w ≤ of_int W)%Qc), (decide (y + h ≤ of_int Hh)%Qc); tauto.
Qed.

Lemma rejected_not_accepted W Hh a : rejected W Hh a → ¬ accepted W Hh a.
Proof.
  intros Hr Ha. 
  assert (length (ann_bbox a) = 4%nat) as Hl.
  { unfold rejected in Hr. by destruct (ann_bbox a) as [|x [|y [|w [|h [|? ?]]]]]. }
  by apply accepted_not_rejected in Ha.
Qed.

(** The skip branch: no list changes, the counter moves by one. *)
Lemma loop_body_rejected W Hh cidx inc st a :
  rejected W Hh a → loop_body W Hh cidx inc st a = Ok (skip st).
Proof.
  intros Hr. unfold loop_body.
  pose proof Hr as Hr'. unfold rejected in Hr'.
  destruct (ann_bbox a) as [|x [|y [|w [|h [|? ?]]]]] eqn:Hb; try done. simpl.
  apply (rejected_guards _ _ _ _ _ _ _ Hb) in Hr.
  apply orb_true_iff in Hr as [->| ->]; [done|]. by destruct (degenerate w h).
Qed.

Lemma loop_body_accepted W Hh cidx inc st a st' :
  accepted W Hh a →
  loop_body W Hh cidx inc st a = Ok st' ↔
  of_int W ≠ 0%Qc ∧ of_int Hh ≠ 0%Qc ∧
  ∃ cat masks,
    cidx !! ann_category_id a = Some cat
    ∧ (if inc
       then ∃ m, encode_mask Hh W a = Ok m ∧ masks = encoded_mask_png st ++ [m]
       else masks = encoded_mask_png st)
    ∧ st' = pushed W Hh st a (encode_utf8 (cat_name cat)) masks.
Proof.
  intros Ha. unfold loop_body, pushed, bbox_x, bbox_y, bbox_width, bbox_height.
  pose proof Ha as Ha'. unfold accepted in Ha'.
  destruct (ann_bbox a) as [|x [|y [|w [|h [|? ?]]]]] eqn:Hb; try done. simpl.
  assert (¬ rejected W Hh a) as Hn by (apply accepted_not_rejected; [by rewrite Hb|done]).
  rewrite (rejected_guards _ _ _ _ _ _ _ Hb) in Hn.
  apply not_true_is_false, orb_false_iff in Hn as [-> ->].
  unfold truediv, norm_xmin, norm_xmax, norm_ymin, norm_ymax.
  repeat case_bool_decide; simpl; try (split; [done|tauto]).
  unfold getitem. destruct (cidx !! ann_category_id a) as [cat|]; simpl.
  2: { split; [done|]. by intros (_ & _ & ? & ? & ? & _). }
  destruct inc; simpl.
  - destruct (encode_mask Hh W a) as [m|e]; simpl.
    + split.
      * intros [= <-]. repeat split; try done. eauto 10.
      * intros (_ & _ & ? & ? & [= <-] & (? & [= <-] & ->) & ->). done.
    + split; [done|]. by intros (_ & _ & ? & ? & _ & (? & ? & _) & _).
  - split.
    + intros [= <-]. repeat split; try done. eauto 10.
    + intros (_ & _ & ? & ? & [= <-] & -> & ->). done.
Qed.


Lemma filter_cons_accepted W Hh a (l : list annotation) :
  accepted W Hh a →
  filter (accepted W Hh) (a :: l) = a :: filter (accepted W Hh) l.
Proof. intros. by rewrite filter_cons_True. Qed.

Lemma annotations_loop_post W Hh cidx inc anns st st' :
  annotations_loop W Hh cidx inc st anns = Ok st' →
  loop_post W Hh inc anns st st'.
Proof.
  revert st. induction anns as [|a anns IH]; intros st Hl; simpl in Hl.
  - injection Hl as <-. split; rewrite ?filter_nil; simpl; rewrite ?app_nil_r; try done.
    + by destruct inc.
    + lia.
  - apply bind_Ok in Hl as (st1 & Hb & Hl). apply IH in Hl as [].
    destruct (decide (rejected W Hh a)) as [Hr|Hr].
    + rewrite (loop_body_rejected _ _ _ _ _ _ Hr) in Hb. injection Hb as <-.
      pose proof (rejected_not_accepted _ _ _ Hr) as Hna.
      split; rewrite ?(filter_cons_False _ _ _ Hna), ?(filter_cons_True _ _ _ Hr); try done.
      simpl in *. rewrite post_skipped0. simpl. lia.
    + assert (accepted W Hh a) as Ha.
      { apply accepted_not_rejected; [|done]. unfold loop_body in Hb.
        by destruct (ann_bbox a) as [|x [|y [|w [|h [|? ?]]]]]. }
      apply (loop_body_accepted _ _ _ _ _ _ _ Ha) in Hb
        as (_ & _ & cat & masks & _ & Hm & ->).
      split; rewrite ?(filter_cons_True _ _ _ Ha), ?(filter_cons_False _ _ _ Hr);
        simpl in *;
        try (etrans; [eassumption|]; by rewrite <- app_assoc).
      * rewrite post_category_names0, !length_app. simpl. lia.
      * rewrite post_masks0. destruct inc.
        -- destruct Hm as (m & _ & ->). rewrite length_app. simpl. lia.
        -- by subst.
      * done.
Qed.


Lemma annotations_loop_returns W Hh cidx inc anns st :
  0 < W → 0 < Hh →
  Forall (fun a =>
       length (ann_bbox a) = 4%nat
       ∧ (accepted W Hh a →
            is_Some (cidx !! ann_category_id a)
            ∧ (inc = true → is_Ok (encode_mask Hh W a)))) anns →
  is_Ok (annotations_loop W Hh cidx inc st anns).
Proof.
  intros HW HH Hall. revert st.
  induction Hall as [|a anns (Hlen & Hacc) _ IH]; intros st; simpl.
  - by eexists.
  - destruct (decide (rejected W Hh a)) as [Hr|Hr].
    + rewrite (loop_body_rejected _ _ _ _ _ _ Hr). simpl. apply IH.
    + apply accepted_not_rejected in Hr; [|done].
      destruct (Hacc Hr) as ([cat Hcat] & Hmask).
      assert (∃ st1, loop_body W Hh cidx inc st a = Ok st1) as [st1 ->].
      { destruct inc.
        - destruct (Hmask eq_refl) as [m Hm]. eexists.
          apply (loop_body_accepted _ _ _ _ _ _ _ Hr).
          split_and!; [by apply of_int_nonzero..|]. eauto 10.
        - eexists. apply (loop_body_accepted _ _ _ _ _ _ _ Hr).
          split_and!; [by apply of_int_nonzero..|]. eauto 10. }
      simpl. apply IH.
Qed.

Lemma create_tf_example_returns im anns image_dir cidx inc :
  well_formed_input im anns image_dir cidx inc →
  is_Ok (create_tf_example im anns image_dir cidx inc).
Proof.
  intros ((jpg & Hread & [[] Hopen]) & HW & HH & Hall).
  unfold create_tf_example. rewrite Hread. simpl. rewrite Hopen. simpl.
  destruct (annotations_loop_returns _ _ cidx inc anns loop_init HW HH Hall) as [st ->].
  simpl. by eexists.
Qed.

Lemma create_tf_example_Ok im anns image_dir cidx inc key ex n :
  create_tf_example im anns image_dir cidx inc = Ok (key, ex, n) →
  ∃ encoded_jpg st,
    gfile_read (path_join image_dir (img_file_name im)) = Ok encoded_jpg
    ∧ annotations_loop (img_width im) (img_height im) cidx inc loop_init anns = Ok st
    ∧ key = sha256_hexdigest encoded_jpg
    ∧ ex = feature_dict im key encoded_jpg inc st
    ∧ n = num_annotations_skipped st.
Proof.
  unfold create_tf_example. intros Hc.
  apply bind_Ok in Hc as (jpg & Hread & Hc).
  apply bind_Ok in Hc as (? & _ & Hc).
  apply bind_Ok in Hc as (st & Hloop & [= <- <- <-]).
  eauto 10.
Qed.

Ltac lookup_feature :=
  unfold floats, ints, byteses, feature_dict;
  repeat match goal with |- context [if ?b then _ else _] => destruct b end;
  repeat (rewrite lookup_insert_ne by discriminate);
  rewrite ?lookup_insert_eq, ?lookup_empty; reflexivity.

Lemma feature_dict_xmin im key jpg inc st :
  floats (feature_dict im key jpg inc st) "image/object/bbox/xmin" = Some (xmin st).
Proof. lookup_feature. Qed.
Lemma feature_dict_xmax im key jpg inc st :
  floats (feature_dict im key jpg inc st) "image/object/bbox/xmax" = Some (xmax st).
Proof. lookup_feature. Qed.
Lemma feature_dict_ymin im key jpg inc st :
  floats (feature_dict im key jpg inc st) "image/object/bbox/ymin" = Some (ymin st).
Proof. lookup_feature. Qed.
Lemma feature_dict_ymax im key jpg inc st :
  floats (feature_dict im key jpg inc st) "image/object/bbox/ymax" = Some (ymax st).
Proof. lookup_feature. Qed.
Lemma feature_dict_area im key jpg inc st :
  floats (feature_dict im key jpg inc st) "image/object/area" = Some (area st).
Proof. lookup_feature. Qed.
Lemma feature_dict_is_crowd im key jpg inc st :
  ints (feature_dict im key jpg inc st) "image/object/is_crowd" = Some (is_crowd st).
Proof. lookup_feature. Qed.
Lemma feature_dict_text im key jpg inc st :
  byteses (feature_dict im key jpg inc st) "image/object/class/text"
  = Some (category_names st).
Proof. lookup_feature. Qed.
Lemma feature_dict_mask im key jpg inc st :
  feature_dict im key jpg inc st !! "image/object/mask"
  = if inc then Some (BytesList (encoded_mask_png st)) else None.
Proof. lookup_feature. Qed.



Lemma accepted_bbox W Hh a :
  accepted W Hh a → ∃ x y w h, ann_bbox a = [x; y; w; h].
Proof.
  unfold accepted. destruct (ann_bbox a) as [|x [|y [|w [|h [|? ?]]]]]; try done.
  eauto.
Qed.



Lemma annotations_loop_app W Hh cidx inc st pre post :
  annotations_loop W Hh cidx inc st (pre ++ post)
  = annotations_loop W Hh cidx inc st pre
      ≫= fun st1 => annotations_loop W Hh cidx inc st1 post.
Proof.
  revert st. induction pre as [|a pre IH]; intros st; simpl; [done|].
  destruct (loop_body W Hh cidx inc st a) as [st1|e]; simpl; [apply IH|done].
Qed.


(** C3. Whatever the annotation list, skipped entries included, the
    record [create_tf_example] returns has xmin, xmax, ymin, ymax, class
    text, is_crowd and area sequences of one and the same length, the
    number of accepted annotations; with [include_masks] the mask sequence
    is present and has that length too.  On a well-formed input the
    function does return a record. *)
Theorem record_sequences_are_parallel im anns image_dir cidx inc :
  (well_formed_input im anns image_dir cidx inc →
   is_Ok (create_tf_example im anns image_dir cidx inc))
  ∧ (∀ key ex n,
      create_tf_example im anns image_dir cidx inc = Ok (key, ex, n) →
      ∃ lxmin lxmax lymin lymax names crowd areas,
        floats ex "image/object/bbox/xmin" = Some lxmin
        ∧ floats ex "image/object/bbox/xmax" = Some lxmax
        ∧ floats ex "image/object/bbox/ymin" = Some lymin
        ∧ floats ex "image/object/bbox/ymax" = Some lymax
        ∧ byteses ex "image/object/class/text" = Some names
        ∧ ints ex "image/object/is_crowd" = Some crowd
        ∧ floats ex "image/object/area" = Some areas
        ∧ length lxmin = length (filter (accepted (img_width im) (img_height im)) anns)
        ∧ length lxmax = length lxmin
        ∧ length lymin = length lxmin
        ∧ length lymax = length lxmin
        ∧ length names = length lxmin
        ∧ length crowd = length lxmin
        ∧ length areas = length lxmin
        ∧ (inc = true →
             ∃ masks, byteses ex "image/object/mask" = Some masks
                      ∧ length masks = length lxmin)).
Proof.
  split; [apply create_tf_example_returns|].
  intros key ex n Hc.
  apply create_tf_example_Ok in Hc as (jpg & st & _ & Hl & _ & -> & _).
  apply annotations_loop_post in Hl as [].
  rewrite feature_dict_xmin, feature_dict_xmax, feature_dict_ymin,
    feature_dict_ymax, feature_dict_text, feature_dict_is_crowd, feature_dict_area.
  do 7 eexists. split_and!; try done.
  - by rewrite post_xmin0, length_app, length_fmap.
  - by rewrite post_xmax0, post_xmin0, !length_app, !length_fmap.
  - by rewrite post_ymin0, post_xmin0, !length_app, !length_fmap.
  - by rewrite post_ymax0, post_xmin0, !length_app, !length_fmap.
  - by rewrite post_category_names0, post_xmin0, !length_app, !length_fmap.
  - by rewrite post_is_crowd0, post_xmin0, !length_app, !length_fmap.
  - by rewrite post_area0, post_xmin0, !length_app, !length_fmap.
  - intros ->. unfold byteses. rewrite feature_dict_mask. eexists; split; [done|].
    by rewrite post_masks0, post_xmin0, !length_app, !length_fmap.
Qed.







Lemma mapR_Ok {A B} (f : A → result B) (l : list A) (l' : list B) :
  mapR f l = Ok l' ↔ Forall2 (fun v v' => f v = Ok v') l l'.
Proof.
  revert l'. induction l as [|v l IH]; intros l'; simpl.
  - split; [by intros [= <-]; constructor|by inversion 1].
  - rewrite bind_Ok. split.
    + intros (b & Hb & Hr). apply bind_Ok in Hr as (bs & Hbs & [= <-]).
      constructor; [done|by apply IH].
    + inversion 1 as [|? b ? bs Hb Hbs]; subst. exists b. split; [done|].
      apply bind_Ok. exists bs. split; [by apply IH|done].
Qed.







Lemma round_robin_init s : round_robin s [] (replicate s []).
Proof.
  split; [by rewrite length_replicate|].
  intros j shard [-> _]%lookup_replicate q. by rewrite !lookup_nil.
Qed.

Lemma round_robin_shard_length s records shards j shard :
  (0 < s)%nat → round_robin s records shards →
  shards !! j = Some shard →
  (j < s)%nat ∧ length shard = ((length records + s - 1 - j) / s)%nat.
Proof.
  intros Hs [Hlen Hrr] Hj.
  assert (j < s)%nat as Hjs by (rewrite <- Hlen; by eapply lookup_lt_Some).
  split; [done|].
  set (d := ((length records + s - 1 - j) / s)%nat).
  assert (∀ q, (q < length shard ↔ q < d)%nat) as Hq.
  { intros q. rewrite <- lookup_lt_is_Some, (Hrr _ _ Hj), lookup_lt_is_Some.
    subst d. split; intros Hlt.
    - apply Nat.div_le_lower_bound; nia.
    - assert (S q * s ≤ length records + s - 1 - j)%nat; [|nia].
      etrans; [apply Nat.mul_le_mono_r, Hlt|].
      rewrite Nat.mul_comm. by apply Nat.Div0.mul_div_le. }
  destruct (Hq (length shard)) as [_ H1]. destruct (Hq d) as [H2 _]. lia.
Qed.

Lemma round_robin_step s records shards r :
  (0 < s)%nat → round_robin s records shards →
  round_robin s (records ++ [r])
    (alter (fun w => w ++ [r]) (length records mod s)%nat shards).
Proof.
  intros Hs Hrr. pose proof Hrr as [Hlen Hall].
  split; [by rewrite length_alter|].
  intros j shard Hj q.
  pose proof (Nat.div_mod_eq (length records) s) as Hdm.
  pose proof (Nat.mod_upper_bound (length records) s ltac:(lia)) as Hmod.
  destruct (decide (j = length records mod s)%nat) as [->|Hne].
  - rewrite list_lookup_alter_eq in Hj.
    destruct (shards !! (length records mod s)%nat) as [old|] eqn:Hold; [|done].
    injection Hj as <-.
    destruct (round_robin_shard_length _ _ _ _ _ Hs Hrr Hold) as [_ Hl].
    assert (length old = length records / s)%nat as Hl'.
    { rewrite Hl. replace (length records + s - 1 - length records mod s)%nat
        with (s * (length records / s) + (s - 1))%nat by lia.
      rewrite Nat.mul_comm, Nat.div_add_l by lia.
      rewrite (Nat.div_small (s - 1) s) by lia. lia. }
    destruct (decide (q < length old)%nat) as [Hq|Hq].
    + rewrite lookup_app_l by done. rewrite (Hall _ _ Hold).
      rewrite lookup_app_l; [done|]. nia.
    + destruct (decide (q = length old)) as [->|Hq'].
      * rewrite list_lookup_middle by done.
        rewrite list_lookup_middle; [done|]. nia.
      * rewrite !lookup_ge_None_2; [done|rewrite length_app; simpl; nia
                                   |rewrite length_app; simpl; lia].
  - rewrite list_lookup_alter_ne in Hj by done.
    rewrite (Hall _ _ Hj).
    assert (j < s)%nat by (rewrite <- Hlen; by eapply lookup_lt_Some).
    assert (q * s + j ≠ length records)%nat as Hneq.
    { intros Heq. apply Hne. rewrite <- Heq.
      rewrite Nat.add_comm, Nat.Div0.mod_add. by rewrite Nat.mod_small. }
    destruct (decide (q * s + j < length records)%nat).
    + by rewrite lookup_app_l.
    + rewrite !lookup_ge_None_2; [done|rewrite length_app; simpl; lia|lia].
Qed.

Lemma round_robin_routes s records shards i rec :
  (0 < s)%nat → round_robin s records shards →
  records !! i = Some rec →
  ∃ shard, shards !! (i mod s)%nat = Some shard ∧ shard !! (i / s)%nat = Some rec.
Proof.
  intros Hs [Hlen Hall] Hi.
  destruct (lookup_lt_is_Some_2 shards (i mod s)%nat) as [shard Hshard].
  { rewrite Hlen. apply Nat.mod_upper_bound. lia. }
  exists shard. split; [done|]. rewrite (Hall _ _ Hshard).
  rewrite <- Hi. f_equal. pose proof (Nat.div_mod_eq i s). lia.
Qed.

Lemma floor_or_ceil (n s j : nat) :
  (0 < s → j < s →
   (n + s - 1 - j) / s = n / s ∨ (n + s - 1 - j) / s = (n + s - 1) / s)%nat.
Proof.
  intros Hs Hj.
  pose proof (Nat.div_mod_eq n s) as Hdm.
  pose proof (Nat.mod_upper_bound n s ltac:(lia)) as Hmod.
  destruct (decide (j < n mod s)%nat).
  - right.
    replace (n + s - 1 - j)%nat with ((n / s + 1) * s + (n mod s - 1 - j))%nat by lia.
    replace (n + s - 1)%nat with ((n / s + 1) * s + (n mod s - 1))%nat by lia.
    rewrite !Nat.div_add_l by lia.
    rewrite (Nat.div_small (n mod s - 1 - j)), (Nat.div_small (n mod s - 1)) by lia.
    done.
  - left.
    replace (n + s - 1 - j)%nat with ((n / s) * s + (n mod s + s - 1 - j))%nat by lia.
    rewrite !Nat.div_add_l by lia.
    rewrite (Nat.div_small (n mod s + s - 1 - j)) by lia. lia.
Qed.


Lemma shard_write_Ok (S : Z) (k : nat) (out : list (list bytes)) (r : bytes) :
  0 < S → length out = Z.to_nat S →
  (mod_ (Z.of_nat k) S ≫= fun shard_idx => shard_write out shard_idx r)
  = Ok (alter (fun w => w ++ [r]) (k mod Z.to_nat S)%nat out).
Proof.
  intros HS Hlen. unfold mod_. rewrite bool_decide_eq_false_2 by lia. simpl.
  pose proof (Z.mod_pos_bound (Z.of_nat k) S HS) as Hb.
  unfold shard_write, list_index. rewrite bool_decide_eq_true_2 by lia. simpl.
  do 2 f_equal. rewrite <- (Z2Nat.id S) at 1 by lia.
  rewrite <- Nat2Z.inj_mod. apply Nat2Z.id.
Qed.

Lemma images_loop_round_robin aidx image_dir cidx inc S images :
  0 < S →
  ∀ records0 total out out' total',
    round_robin (Z.to_nat S) records0 out →
    images_loop aidx image_dir cidx inc S (Z.of_nat (length records0)) total out images
    = Ok (out', total') →
    ∃ records,
      mapR (record_of aidx image_dir cidx inc) images = Ok records
      ∧ round_robin (Z.to_nat S) (records0 ++ records) out'.
Proof.
  intros HS. induction images as [|im images IH];
    intros records0 total out out' total' Hrr Hl; simpl in Hl.
  - injection Hl as <- <-. exists []. by rewrite app_nil_r.
  - apply bind_Ok in Hl as (anns & Hanns & Hl).
    apply bind_Ok in Hl as ([[key ex] n] & Hex & Hl).
    rewrite bind_Ok in Hl. destruct Hl as (shard_idx & Hmod & Hl).
    rewrite bind_Ok in Hl. destruct Hl as (out1 & Hw & Hl).
    pose proof (shard_write_Ok S (length records0) out (SerializeToString ex) HS
                  (proj1 Hrr)) as Hsw.
    rewrite Hmod in Hsw. simpl in Hsw. rewrite Hw in Hsw. injection Hsw as ->.
    replace (Z.of_nat (length records0) + 1)
      with (Z.of_nat (length (records0 ++ [SerializeToString ex]))) in Hl
      by (rewrite length_app; simpl; lia).
    apply IH in Hl as (records & Hrec & Hrr'); [|apply round_robin_step; [lia|done]].
    assert (record_of aidx image_dir cidx inc im = Ok (SerializeToString ex)) as Hr.
    { unfold record_of. rewrite Hanns. simpl. by rewrite Hex. }
    exists (SerializeToString ex :: records). simpl. rewrite Hr. simpl.
    rewrite Hrec. simpl. split; [done|]. by rewrite <- app_assoc in Hrr'.
Qed.

Lemma images_loop_returns aidx image_dir cidx inc S images :
  0 < S →
  Forall (fun im => is_Ok (record_of aidx image_dir cidx inc im)) images →
  ∀ k total out,
    length out = Z.to_nat S →
    is_Ok (images_loop aidx image_dir cidx inc S (Z.of_nat k) total out images).
Proof.
  intros HS Hall. induction Hall as [|im images [r Hr] _ IH];
    intros k total out Hlen; simpl.
  - by eexists.
  - unfold record_of in Hr.
    apply bind_Ok in Hr as (anns & -> & Hr). simpl.
    apply bind_Ok in Hr as ([[key ex] n] & -> & _). simpl.
    pose proof (shard_write_Ok S k out (SerializeToString ex) HS Hlen) as Hsw.
    destruct (mod_ (Z.of_nat k) S) as [shard_idx|]; [|done]. simpl in *.
    rewrite Hsw. simpl.
    replace (Z.of_nat k + 1) with (Z.of_nat (Datatypes.S k)) by lia.
    apply IH. by rewrite length_alter.
Qed.

(** C6. With S > 0 shards, a run that writes the N images of the document
    puts the record of the image at enumeration index i into shard
    i mod S (as its entry number i / S), so that shard j holds the records
    j, j + S, j + 2 S, ... and nothing else, and every shard ends with
    floor(N/S) or ceil(N/S) records.  The run completes whenever each
    image's record can be built. *)
Theorem shards_are_filled_round_robin gt image_dir inc S
    images annotations categories :
  0 < S →
  gt = Groundtruth (Some images) (Some annotations) (Some categories) →
  let cidx := create_category_index categories in
  let aidx :=
    (fold_left index_image images (0, fold_left index_annotation annotations ∅)).2 in
  let s := Z.to_nat S in
  let N := length images in
  (Forall (fun im => is_Ok (record_of aidx image_dir cidx inc im)) images →
   is_Ok (_create_tf_record_from_coco_annotations gt image_dir inc S))
  ∧ (∀ shards missing skipped,
      _create_tf_record_from_coco_annotations gt image_dir inc S
      = Ok (shards, missing, skipped) →
      ∃ records,
        mapR (record_of aidx image_dir cidx inc) images = Ok records
        ∧ length records = N
        ∧ length shards = s
        ∧ (∀ i rec, records !! i = Some rec →
             ∃ shard, shards !! Z.to_nat (Z.of_nat i `mod` S) = Some shard
                      ∧ shard !! (i / s)%nat = Some rec)
        ∧ (∀ j shard, shards !! j = Some shard →
             (∀ q, shard !! q = records !! (q * s + j)%nat)
             ∧ (length shard = (N / s)%nat ∨ length shard = ((N + s - 1) / s)%nat))
        ∧ (N / s * s ≤ N < (N / s + 1) * s)%nat
        ∧ (N ≤ (N + s - 1) / s * s < N + s)%nat).
Proof.
  intros HS -> cidx aidx s N. unfold _create_tf_record_from_coco_annotations. simpl.
  fold cidx. 
  destruct (fold_left index_image images (0, fold_left index_annotation annotations ∅))
    as [missing0 aidx0] eqn:Hidx. simpl in aidx. subst aidx.
  assert (0 < s)%nat as Hs by (subst s; lia).
  split.
  - intros Hall.
    destruct (images_loop_returns aidx0 image_dir cidx inc S images HS Hall 0 0
                (open_sharded_output_tfrecords S)) as [[out total] Hl].
    { unfold open_sharded_output_tfrecords. by rewrite length_replicate. }
    change (Z.of_nat 0) with 0 in Hl. rewrite Hl. simpl. by eexists.
  - intros shards missing skipped Hrun.
    apply bind_Ok in Hrun as ([out total] & Hl & [= <- <- <-]).
    apply (images_loop_round_robin _ _ _ _ _ _ HS [] 0) in Hl
      as (records & Hrec & Hrr); [|apply round_robin_init].
    simpl in Hrr. exists records.
    assert (length records = N) as HN.
    { apply mapR_Ok in Hrec. symmetry. by eapply Forall2_length. }
    do 3 (split; [done || apply Hrr|]). split; [|split; [|split]].
    + intros i rec Hi.
      replace (Z.to_nat (Z.of_nat i `mod` S)) with (i mod s)%nat.
      * by eapply round_robin_routes.
      * subst s. rewrite <- (Z2Nat.id S) at 2 by lia.
        by rewrite <- Nat2Z.inj_mod, Nat2Z.id.
    + intros j shard Hj. split; [by apply Hrr|].
      destruct (round_robin_shard_length _ _ _ _ _ Hs Hrr Hj) as [Hjs ->].
      rewrite HN. by apply floor_or_ceil.
    + pose proof (Nat.div_mod_eq N s). pose proof (Nat.mod_upper_bound N s). lia.
    + pose proof (Nat.div_mod_eq (N + s - 1) s).
      pose proof (Nat.mod_upper_bound (N + s - 1) s). lia.
Qed.

End Facts.
End ConverterProofs.

Module ConverterExamples.
Import CocoToTfrecordConverter PyFacts ConverterProofs.



(** C3 on the demo list, masks included: two entries everywhere. *)
Lemma record_sequences_are_parallel_witness :
  match demo_create_tf_example true with
  | Ok (_, ex, _) =>
      ∃ lxmin larea masks,
        floats ex "image/object/bbox/xmin" = Some lxmin
        ∧ floats ex "image/object/area" = Some larea
        ∧ byteses ex "image/object/mask" = Some masks
        ∧ length lxmin = 2%nat ∧ length larea = 2%nat ∧ length masks = 2%nat
  | Raise _ => False
  end.
Proof.
  destruct (demo_create_tf_example true) as [[[key ex] n]|e] eqn:E; [|by vm_compute in E].
  destruct (@record_sequences_are_parallel demo_collaborators demo_image
              demo_annotations "images" demo_category_index true) as [_ Hpar].
  destruct (Hpar key ex n E)
    as (lxmin & lxmax & lymin & lymax & names & crowd & areas
        & Hxmin & _ & _ & _ & _ & _ & Harea & Hlen & _ & _ & _ & _ & _ & Hla & Hm).
  destruct (Hm eq_refl) as (masks & Hmasks & Hlm).
  exists lxmin, areas, masks. rewrite Hlm, Hla, Hlen. by split_and!.
Defined.




(** The same mask, computed: the two channels of each pixel are OR-ed. *)
Example demo_mask_is_or :
  @encode_mask demo_collaborators 100 100 (demo_annotation 0 10 20 30 40)
  = Ok [Byte.x01; Byte.x00; Byte.x01; Byte.x01].
Proof. reflexivity. Qed.

(** C6 on three images and two shards: two records and one. *)
Lemma shards_are_filled_round_robin_witness :
  match @_create_tf_record_from_coco_annotations demo_collaborators
          demo_groundtruth "images" false 2 with
  | Ok (shards, _, _) =>
      length shards = 2%nat
      ∧ ∀ j shard, shards !! j = Some shard →
          length shard = 1%nat ∨ length shard = 2%nat
  | Raise _ => False
  end.
Proof.
  destruct (@_create_tf_record_from_coco_annotations demo_collaborators
              demo_groundtruth "images" false 2)
    as [[[shards missing] skipped]|e] eqn:E; [|by vm_compute in E].
  destruct (@shards_are_filled_round_robin demo_collaborators demo_groundtruth
              "images" false 2 _ _ _ ltac:(done) eq_refl) as [_ Hrr].
  destruct (Hrr shards missing skipped E)
    as (records & _ & _ & Hlen & _ & Hshard & _).
  split; [exact Hlen|]. intros j shard Hj. by destruct (Hshard j shard Hj) as [_ ?].
Defined.

End ConverterExamples.

Module StringFacts.

Lemma app_cons (c : ascii) (s t : string) : String c s +:+ t = String c (s +:+ t).
Proof. reflexivity. Qed.

Lemma app_nil_l (s : string) : "" +:+ s = s.
Proof. reflexivity. Qed.

Lemma app_nil_r (s : string) : s +:+ "" = s.
Proof. induction s as [|c s IH]; [done|]. by rewrite app_cons, IH. Qed.

Lemma app_assoc (s t u : string) : (s +:+ t) +:+ u = s +:+ t +:+ u.
Proof. induction s as [|c s IH]; [done|]. by rewrite !app_cons, IH. Qed.

Lemma length_app (s t : string) :
  String.length (s +:+ t) = (String.length s + String.length t)%nat.
Proof. induction s as [|c s IH]; [done|]. rewrite app_cons. simpl. by rewrite IH. Qed.


End StringFacts.

Module ReProofs.
Import Re StringFacts.









End ReProofs.

Module PartitionProofs.
Import Re StringFacts ReProofs PartitionDataset PyFacts.




Lemma contains_app c s t : contains c (s +:+ t) = contains c s || contains c t.
Proof.
  induction s as [|c' s IH]; [done|]. rewrite app_cons. simpl.
  by rewrite IH, orb_assoc.
Qed.





(** *** Paths *)

Lemma contains_false_upto_last c f : contains c f = false → upto_last c f = "".
Proof. destruct f as [|c' f]; [done|]. simpl. by intros ->. Qed.

Lemma upto_last_app_sep d f :
  contains sep f = false →
  upto_last sep (d +:+ String sep f) = d +:+ String sep "".
Proof.
  intros Hf. induction d as [|c d IH].
  - rewrite !app_nil_l. simpl. rewrite ?bool_decide_eq_true_2 by done. simpl.
    by rewrite contains_false_upto_last.
  - rewrite !app_cons. simpl. rewrite contains_app. simpl.
    rewrite ?(bool_decide_eq_true_2 (sep = sep)) by done. simpl.
    rewrite !orb_true_r. by rewrite IH.
Qed.

Lemma endswith_char_cons c' d c :
  d ≠ "" → endswith_char (String c' d) c = endswith_char d c.
Proof. by destruct d. Qed.

Lemma endswith_char_app s t c : t ≠ "" → endswith_char (s +:+ t) c = endswith_char t c.
Proof.
  intros Ht. induction s as [|c' s IH]; [done|]. rewrite app_cons.
  rewrite endswith_char_cons; [done|]. by destruct s, t.
Qed.

Lemma rstrip_app_sep d :
  endswith_char d sep = false → rstrip sep (d +:+ String sep "") = d.
Proof.
  induction d as [|c d IH]; intros Hd.
  - rewrite app_nil_l. simpl. by rewrite ?bool_decide_eq_true_2.
  - rewrite app_cons. simpl. destruct d as [|c' d].
    + rewrite app_nil_l. simpl. rewrite ?(bool_decide_eq_true_2 (sep = sep)) by done.
      simpl in Hd. by rewrite Hd.
    + rewrite IH; [done|]. by rewrite endswith_char_cons in Hd.
Qed.

Lemma all_char_app c s t : all_char c (s +:+ t) = all_char c s && all_char c t.
Proof.
  induction s as [|c' s IH]; [done|]. rewrite app_cons. simpl.
  by rewrite IH, andb_assoc.
Qed.

Lemma endswith_char_all_char d c :
  d ≠ "" → endswith_char d c = false → all_char c d = false.
Proof.
  induction d as [|c' d IH]; [done|]. intros _ Hd. simpl.
  destruct d as [|c'' d].
  - simpl in Hd. by rewrite Hd.
  - rewrite IH; [by rewrite andb_false_r|done|done].
Qed.

(** The directory of [d/f] is [d]. *)
Lemma dirname_app_sep d f :
  d ≠ "" → endswith_char d sep = false → contains sep f = false →
  dirname (d +:+ String sep f) = d.
Proof.
  intros Hne Hd Hf. unfold dirname. rewrite upto_last_app_sep by done.
  rewrite all_char_app, (endswith_char_all_char d sep) by done. simpl.
  rewrite bool_decide_eq_false_2; [by apply rstrip_app_sep|].
  by destruct d.
Qed.

Lemma startswith_char_contains f c : contains c f = false → startswith_char f c = false.
Proof. destruct f as [|c' f]; [done|]. simpl. by intros [? _]%orb_false_iff. Qed.

Lemma path_join_plain d f :
  d ≠ "" → endswith_char d sep = false → contains sep f = false →
  path_join d f = d +:+ String sep f.
Proof.
  intros Hne Hd Hf. unfold path_join.
  rewrite (startswith_char_contains f "/") by done.
  rewrite bool_decide_eq_false_2 by done. fold sep. by rewrite Hd.
Qed.

(** A sub-directory [des/name] of whatever [des]: never empty, never
    ending in a separator. *)
Lemma path_join_subdir des name :
  name ≠ "" → contains sep name = false →
  ∃ prefix, path_join des name = prefix +:+ name.
Proof.
  intros Hne Hname. unfold path_join.
  rewrite (startswith_char_contains name "/") by done.
  destruct (bool_decide (des = "") || endswith_char des "/").
  - by exists des.
  - exists (des +:+ "/"). by rewrite app_assoc.
Qed.

Lemma subdir_facts prefix name :
  name ≠ "" → endswith_char name sep = false →
  prefix +:+ name ≠ "" ∧ endswith_char (prefix +:+ name) sep = false
  ∧ all_char sep (prefix +:+ name) = false.
Proof.
  intros Hne Hname.
  assert (prefix +:+ name ≠ "") as Hne' by (by destruct prefix, name).
  assert (endswith_char (prefix +:+ name) sep = false) as He
    by (by rewrite endswith_char_app).
  split_and!; [done..|]. by apply endswith_char_all_char.
Qed.


(** *** The directory set-up, lines 19-22 *)

Lemma makedirs_exists p s : exists_ p s = true → makedirs p s = Raise FileExistsError.
Proof. unfold makedirs. by intros ->. Qed.

Section ScriptFacts.
Context `{Random}.

Lemma make_dirs_absent train_dir test_dir s :
  exists_ train_dir s = false → exists_ test_dir s = false →
  make_dirs train_dir test_dir s = Ok s.
Proof. unfold make_dirs. intros Htr Hte. rewrite Htr. simpl. by rewrite Hte. Qed.

Lemma make_dirs_train_present train_dir test_dir s :
  exists_ train_dir s = true →
  make_dirs train_dir test_dir s = Raise FileExistsError.
Proof. unfold make_dirs. intros Htr. by rewrite Htr, makedirs_exists. Qed.

Lemma make_dirs_test_present train_dir test_dir s :
  exists_ train_dir s = false → exists_ test_dir s = true →
  make_dirs train_dir test_dir s = Raise FileExistsError.
Proof.
  unfold make_dirs. intros Htr Hte. rewrite Htr. simpl.
  by rewrite Hte, makedirs_exists.
Qed.

Lemma make_dirs_Ok train_dir test_dir s s' :
  make_dirs train_dir test_dir s = Ok s' →
  s' = s ∧ exists_ train_dir s = false ∧ exists_ test_dir s = false.
Proof.
  destruct (exists_ train_dir s) eqn:Htr.
  - by rewrite make_dirs_train_present.
  - destruct (exists_ test_dir s) eqn:Hte.
    + by rewrite make_dirs_test_present.
    + rewrite make_dirs_absent by done. by intros [= <-].
Qed.

(** C8. Lines 19-22 create nothing: a destination directory that is
    absent stays absent (the file system is returned unchanged), and one
    that is present makes [os.makedirs] raise [FileExistsError]. *)
Theorem make_dirs_creates_nothing train_dir test_dir s :
  (exists_ train_dir s = false → exists_ test_dir s = false →
   make_dirs train_dir test_dir s = Ok s)
  ∧ (exists_ train_dir s = true →
     make_dirs train_dir test_dir s = Raise FileExistsError)
  ∧ (exists_ train_dir s = false → exists_ test_dir s = true →
     make_dirs train_dir test_dir s = Raise FileExistsError).
Proof.
  split_and!.
  - apply make_dirs_absent.
  - apply make_dirs_train_present.
  - apply make_dirs_test_present.
Qed.

(** *** Copying into a directory that is not there *)

Lemma copyfile_missing_dir src d f s :
  d ≠ "" → endswith_char d sep = false → all_char sep d = false →
  contains sep f = false →
  exists_ d s = false →
  ¬ is_Ok (copyfile src (path_join d f) s).
Proof.
  intros Hne Hd Hall Hf Hex [s' Hc]. rewrite path_join_plain in Hc by done.
  unfold copyfile in Hc.
  destruct (bool_decide (src ∈ dirs s)); [done|].
  destruct (files s !! src); [|done].
  destruct (bool_decide (src = d +:+ String sep f)); [done|].
  destruct (bool_decide (d +:+ String sep f ∈ dirs s)); [done|].
  unfold parent_exists in Hc. rewrite dirname_app_sep in Hc by done.
  rewrite Hall in Hc. rewrite bool_decide_eq_false_2 in Hc by done.
  unfold exists_ in Hex. apply orb_false_iff in Hex as [Hex _].
  by rewrite Hex in Hc.
Qed.

Lemma subdir_missing des name f src s :
  name ≠ "" → contains sep name = false → endswith_char name sep = false →
  contains sep f = false →
  exists_ (path_join des name) s = false →
  ¬ is_Ok (copyfile src (path_join (path_join des name) f) s).
Proof.
  intros Hne Hname Hend Hf Hex.
  destruct (path_join_subdir des name Hne Hname) as [prefix Heq].
  rewrite Heq in *.
  destruct (subdir_facts prefix name Hne Hend) as (? & ? & ?).
  by apply copyfile_missing_dir.
Qed.

(** C7. No call of [iterate_dir] on a folder with at least one image
    completes: with a destination directory present, line 20 or 22 raises;
    with both absent, nothing creates them and the first copy raises.  So
    no run leaves ceil(ratio * n) images in [test] and the others in
    [train]. *)
Theorem iterate_dir_never_completes source_dir des_dir ratio cop_xml s g names :
  listdir source_dir s = Ok names →
  Forall (fun f => contains sep f = false) names →
  (∃ f, f ∈ names ∧ is_image f = true) →
  ¬ is_Ok (iterate_dir source_dir des_dir ratio cop_xml s g).
Proof.
  intros Hls Hnames (f0 & Hf0 & Himg) [[s' g'] Hrun].
  unfold iterate_dir in Hrun.
  apply bind_Ok in Hrun as (s1 & (-> & Htrain & Htest)%make_dirs_Ok & Hrun).
  unfold partition in Hrun. rewrite Hls in Hrun. simpl in Hrun.
  set (images := filter (fun f => is_image f = true) names) in *.
  assert (Forall (fun f => contains sep f = false) images) as Himages.
  { apply Forall_forall. intros f [_ Hf]%list_elem_of_filter.
    by eapply Forall_forall in Hnames. }
  assert (f0 ∈ images) as Hin by (by apply list_elem_of_filter).
  apply bind_Ok in Hrun as ([[s2 g2] images2] & Hloop & Hrun).
  destruct (Z.to_nat (ceil (ratio * of_int (Z.of_nat (length images))))) as [|n].
  - simpl in Hloop. injection Hloop as <- <- <-.
    apply bind_Ok in Hrun as (s3 & Htl & _).
    destruct images as [|f images']; [by apply elem_of_nil in Hin|].
    simpl in Htl. apply bind_Ok in Htl as (s4 & Hbody & _).
    unfold train_body in Hbody. apply bind_Ok in Hbody as (s5 & Hcopy & _).
    eapply (subdir_missing des_dir "train"); [done..| |done|by eexists].
    by apply Forall_cons in Himages as [? _].
  - simpl in Hloop. apply bind_Ok in Hloop as (st & Hbody & _).
    unfold test_body in Hbody.
    apply bind_Ok in Hbody as ([idx g3] & _ & Hbody).
    apply bind_Ok in Hbody as (i & _ & Hbody).
    apply bind_Ok in Hbody as (filename & Hfile & Hbody).
    apply bind_Ok in Hbody as (s5 & Hcopy & _).
    destruct (images !! i) as [f|] eqn:Hi; [|done]. injection Hfile as ->.
    eapply (subdir_missing des_dir "test"); [done..| |done|by eexists].
    eapply Forall_forall in Himages; [done|]. by eapply list_elem_of_lookup_2.
Qed.


(** *** The copy loops *)



Lemma list_remove_first_Permutation x l l' :
  list_remove_first x l = Ok l' → l ≡ₚ x :: l'.
Proof.
  revert l'. induction l as [|y l IH]; intros l'; simpl; [done|].
  case_bool_decide as Hy.
  - intros [= <-]. by subst.
  - intros (l'' & Hl & [= <-])%bind_Ok. rewrite (IH _ Hl). apply Permutation_swap.
Qed.

(** The draws of the test loop, read as a plain copy: the [n] names it
    picks are copied to [test_dir] in the order drawn, and what is left of
    [images] is [images] without them. *)
Lemma test_loop_selects source_dir test_dir n :
  ∀ s g images s1 g1 remaining,
    test_loop source_dir test_dir false n (s, g, images) = Ok (s1, g1, remaining) →
    ∃ test_set,
      length test_set = n
      ∧ images ≡ₚ test_set ++ remaining
      ∧ copy_loop source_dir test_dir s test_set = Ok s1.
Proof.
  induction n as [|n IH]; intros s g images s1 g1 remaining Hl; simpl in Hl.
  - injection Hl as <- <- <-. by exists [].
  - apply bind_Ok in Hl as ([[s2 g2] images2] & Hbody & Hl).
    unfold test_body in Hbody.
    apply bind_Ok in Hbody as ([idx g3] & _ & Hbody).
    apply bind_Ok in Hbody as (i & _ & Hbody).
    apply bind_Ok in Hbody as (filename & _ & Hbody).
    apply bind_Ok in Hbody as (s3 & Hcopy & Hbody). simpl in Hbody.
    apply bind_Ok in Hbody as (images3 & Hrem & [= <- <- <-]).
    apply IH in Hl as (test_set & Hlen & Hperm & Hcl).
    exists (filename :: test_set). split_and!.
    + simpl. by rewrite Hlen.
    + rewrite (list_remove_first_Permutation _ _ _ Hrem). simpl. by rewrite Hperm.
    + simpl. by rewrite Hcopy.
Qed.

Lemma train_loop_copy_loop source_dir des_dir train_dir s images :
  train_loop source_dir des_dir train_dir false s images
  = copy_loop source_dir train_dir s images.
Proof.
  revert s. induction images as [|f images IH]; intros s; simpl; [done|].
  unfold train_body.
  destruct (copyfile (path_join source_dir f) (path_join train_dir f) s); simpl;
    [apply IH|done].
Qed.

Lemma ceil_nonneg (q : Qc) : (0 ≤ q)%Qc → 0 ≤ ceil q.
Proof.
  intros Hq. unfold ceil. rewrite Zle_Qle.
  eapply Qle_trans; [exact Hq|]. apply Qle_ceiling.
Qed.

(** The selection itself, lines 24-39, is a partition: whenever the two
    loops run to their end (which takes both destination directories),
    [ceil(ratio * n)] of the [n] images went to [test_dir], the others to
    [train_dir], and each image went to exactly one of the two. *)
Theorem partition_splits_images
    source_dir des_dir train_dir test_dir ratio s g s' g' names :
  listdir source_dir s = Ok names →
  NoDup names →
  (0 ≤ ratio)%Qc →
  partition source_dir des_dir train_dir test_dir ratio false s g = Ok (s', g') →
  let images := filter (fun f => is_image f = true) names in
  ∃ test_set train_set s1,
    Z.of_nat (length test_set) = ceil (ratio * of_int (Z.of_nat (length images)))
    ∧ images ≡ₚ test_set ++ train_set
    ∧ NoDup (test_set ++ train_set)
    ∧ copy_loop source_dir test_dir s test_set = Ok s1
    ∧ copy_loop source_dir train_dir s1 train_set = Ok s'.
Proof.
  intros Hls Hnd Hratio Hrun images. unfold partition in Hrun.
  rewrite Hls in Hrun. simpl in Hrun. fold images in Hrun.
  apply bind_Ok in Hrun as ([[s1 g1] remaining] & Hloop & Hrun).
  apply bind_Ok in Hrun as (s2 & Htrain & [= <- <-]).
  rewrite train_loop_copy_loop in Htrain.
  set (num_test := ceil (ratio * of_int (Z.of_nat (length images)))) in *.
  assert (0 ≤ num_test) as Hpos.
  { apply ceil_nonneg, Qcmult_nonneg_nonneg; [done|].
    unfold of_int. rewrite <- Z2Qc_inj_0. apply (proj1 (Z2Qc_inj_le _ _)). lia. }
  apply test_loop_selects in Hloop as (test_set & Hlen & Hperm & Hcopy).
  exists test_set, remaining, s1. split_and!; try done.
  - lia.
  - rewrite <- Hperm. by apply NoDup_filter.
Qed.

(** *** The loops run to their end *)

Lemma fs_extends_refl s : fs_extends s s.
Proof. by split. Qed.

Lemma fs_extends_trans s1 s2 s3 :
  fs_extends s1 s2 → fs_extends s2 s3 → fs_extends s1 s3.
Proof. intros [Hd1 Hf1] [Hd2 Hf2]. split; [congruence|auto]. Qed.

Lemma copy_ready_extends source_dir dst_dir s s' f :
  fs_extends s s' →
  copy_ready source_dir dst_dir s f = true →
  copy_ready source_dir dst_dir s' f = true.
Proof.
  intros [Hd Hf]. unfold copy_ready, parent_exists. rewrite Hd.
  rewrite !andb_true_iff, !bool_decide_eq_true.
  intros ((((? & ?) & ?) & ?) & ?). split_and!; auto.
Qed.

Lemma copyfile_ready source_dir dst_dir s f :
  copy_ready source_dir dst_dir s f = true →
  ∃ s', copyfile (path_join source_dir f) (path_join dst_dir f) s = Ok s'
        ∧ fs_extends s s'.
Proof.
  unfold copy_ready, copyfile.
  rewrite !andb_true_iff, !negb_true_iff, bool_decide_eq_true.
  intros ((((-> & [content ->]) & ->) & ->) & ->).
  eexists. split; [done|]. split; [done|]. simpl. intros p Hp.
  destruct (decide (path_join dst_dir f = p)) as [->|Hne].
  - rewrite lookup_insert_eq. by eexists.
  - by rewrite lookup_insert_ne.
Qed.

Lemma copy_loop_completes source_dir dst_dir names :
  ∀ s, Forall (fun f => copy_ready source_dir dst_dir s f = true) names →
       ∃ s', copy_loop source_dir dst_dir s names = Ok s' ∧ fs_extends s s'.
Proof.
  induction names as [|f names IH]; intros s Hall; simpl.
  - exists s. split; [done|apply fs_extends_refl].
  - apply Forall_cons in Hall as [Hf Hall].
    destruct (copyfile_ready _ _ _ _ Hf) as (s1 & -> & Hext). simpl.
    destruct (IH s1) as (s' & -> & Hext').
    { eapply Forall_impl; [exact Hall|]. intros f'. by apply copy_ready_extends. }
    exists s'. split; [done|by eapply fs_extends_trans].
Qed.

Lemma list_remove_first_elem x l :
  x ∈ l → ∃ l', list_remove_first x l = Ok l'.
Proof.
  induction l as [|y l IH]; [by intros ?%elem_of_nil|]. simpl.
  case_bool_decide as Hy; [by eexists|].
  intros [->|Hin]%elem_of_cons; [done|].
  destruct (IH Hin) as [l' ->]. by eexists.
Qed.

Lemma test_loop_completes source_dir test_dir n :
  ∀ s g images,
    (n ≤ length images)%nat →
    Forall (fun f => copy_ready source_dir test_dir s f = true) images →
    ∃ s1 g1 remaining,
      test_loop source_dir test_dir false n (s, g, images) = Ok (s1, g1, remaining)
      ∧ fs_extends s s1
      ∧ ∀ f, f ∈ remaining → f ∈ images.
Proof.
  induction n as [|n IH]; intros s g images Hlen Hall; simpl.
  - exists s, g, images. split_and!; [done|apply fs_extends_refl|done].
  - unfold test_body, randint.
    rewrite bool_decide_eq_true_2 by lia. simpl.
    pose proof (randint_range 0 (Z.of_nat (length images) - 1) g ltac:(lia)) as Hr.
    destruct (randint_draw 0 (Z.of_nat (length images) - 1) g) as [idx g2].
    simpl in Hr. simpl. unfold list_index.
    rewrite bool_decide_eq_true_2 by lia. simpl.
    destruct (lookup_lt_is_Some_2 images (Z.to_nat idx)) as [filename Hfile]; [lia|].
    rewrite Hfile. simpl.
    assert (filename ∈ images) as Hin by (by eapply list_elem_of_lookup_2).
    destruct (copyfile_ready source_dir test_dir s filename) as (s2 & -> & Hext).
    { by eapply Forall_forall in Hall. }
    simpl. destruct (list_remove_first_elem _ _ Hin) as [images2 Hrem].
    rewrite Hrem. simpl.
    pose proof (list_remove_first_Permutation _ _ _ Hrem) as Hperm.
    destruct (IH s2 g2 images2) as (s1 & g1 & remaining & -> & Hext' & Hsub).
    { apply Permutation_length in Hperm. simpl in Hperm. lia. }
    { apply Forall_forall. intros f Hf. eapply copy_ready_extends; [done|].
      eapply Forall_forall in Hall; [done|]. rewrite Hperm. by right. }
    exists s1, g1, remaining. split_and!; [done|by eapply fs_extends_trans|].
    intros f Hf. rewrite Hperm. right. by apply Hsub.
Qed.

Lemma ceil_le_count (ratio : Qc) (n : nat) :
  (ratio ≤ 1)%Qc → ceil (ratio * of_int (Z.of_nat n)) ≤ Z.of_nat n.
Proof.
  intros Hr. unfold ceil.
  rewrite <- (Qceiling_Z (Z.of_nat n)) at 2. apply Qceiling_resp_le.
  change (ratio * of_int (Z.of_nat n) ≤ of_int (Z.of_nat n))%Qc.
  rewrite <- (Qcmult_1_l (of_int (Z.of_nat n))) at 2.
  apply Qcmult_le_compat_r; [done|].
  unfold of_int. rewrite <- Z2Qc_inj_0. apply (proj1 (Z2Qc_inj_le _ _)). lia.
Qed.

(** With both destination folders in place and a ratio of at most one,
    the two loops of lines 28-39 run to their end. *)
Theorem partition_completes
    source_dir des_dir train_dir test_dir ratio s g names :
  listdir source_dir s = Ok names →
  (ratio ≤ 1)%Qc →
  let images := filter (fun f => is_image f = true) names in
  Forall (fun f => copy_ready source_dir test_dir s f = true) images →
  Forall (fun f => copy_ready source_dir train_dir s f = true) images →
  is_Ok (partition source_dir des_dir train_dir test_dir ratio false s g).
Proof.
  intros Hls Hratio images Htest Htrain. unfold partition.
  rewrite Hls. simpl. fold images.
  destruct (test_loop_completes source_dir test_dir
              (Z.to_nat (ceil (ratio * of_int (Z.of_nat (length images)))))
              s g images) as (s1 & g1 & remaining & -> & Hext & Hsub).
  { pose proof (ceil_le_count ratio (length images) Hratio). lia. }
  { done. }
  simpl. rewrite train_loop_copy_loop.
  destruct (copy_loop_completes source_dir train_dir remaining s1) as (s' & -> & _).
  { apply Forall_forall. intros f Hf. eapply copy_ready_extends; [done|].
    eapply Forall_forall in Htrain; [done|]. by apply Hsub. }
  simpl. by eexists.
Qed.


End ScriptFacts.
End PartitionProofs.

Module PartitionExamples.
Import Re PartitionDataset PyFacts PartitionProofs.

(** C8 on the demo folders, absent and present. *)
Lemma make_dirs_creates_nothing_witness :
  make_dirs "out/train" "out/test" demo_fs = Ok demo_fs
  ∧ make_dirs "out/train" "out/test" demo_fs_with_dirs = Raise FileExistsError.
Proof.
  split.
  - destruct (make_dirs_creates_nothing "out/train" "out/test" demo_fs)
      as (Habsent & _ & _). by apply Habsent.
  - destruct (make_dirs_creates_nothing "out/train" "out/test" demo_fs_with_dirs)
      as (_ & Hpresent & _). by apply Hpresent.
Defined.

(** C7 on the demo folder. *)
Lemma iterate_dir_never_completes_witness :
  ¬ is_Ok (@iterate_dir demo_random "src" "out" (Q2Qc 0.1) false demo_fs 0%nat).
Proof.
  apply (@iterate_dir_never_completes demo_random "src" "out" (Q2Qc 0.1) false
           demo_fs 0%nat
           ["a.jpg"; "a.xml"; "axml"; "b.jpg"; "c.png"; "notes.txt"]).
  - reflexivity.
  - by repeat constructor.
  - exists "a.jpg". split; [by constructor|reflexivity].
Defined.

(** The two ways a run ends: the first copy finds no [test] folder, or
    line 20 finds the [train] folder in its way. *)
Example iterate_dir_absent_dirs :
  @iterate_dir demo_random "src" "out" (Q2Qc 0.1) false demo_fs 0%nat
  = Raise FileNotFoundError.
Proof. by vm_compute. Qed.

Example iterate_dir_present_dirs :
  @iterate_dir demo_random "src" "out" (Q2Qc 0.1) false demo_fs_with_dirs 0%nat
  = Raise FileExistsError.
Proof. by vm_compute. Qed.


(** With only [b.xml] next to [b.jpg] the train branch stops: it looks
    for [bxml]. *)
Example train_body_wants_dotless_sidecar :
  train_body "src" "out" "out/train" true
    (Fs (dirs demo_fs_with_dirs) (<["src/b.xml" := []]> demo_files) demo_listing)
    "b.jpg"
  = Raise FileNotFoundError.
Proof. by vm_compute. Qed.

(** 37 images at ratio 0.1: four go to [test], 33 stay for [train]. *)
Example num_test_images_37 : ceil (Q2Qc 0.1 * of_int 37) = 4.
Proof. reflexivity. Qed.

(** The selection on the three images of the demo folder, had both
    folders been there: ceil(0.5 * 3) = 2 in [test], one in [train]. *)
Example partition_demo :
  ∃ s' g' test_set train_set,
    @partition demo_random "src" "out" "out/train" "out/test" (Q2Qc 0.5) false
      demo_fs_with_dirs 0%nat = Ok (s', g')
    ∧ ["a.jpg"; "b.jpg"; "c.png"] ≡ₚ test_set ++ train_set
    ∧ length test_set = 2%nat ∧ length train_set = 1%nat.
Proof.
  destruct (@partition_completes demo_random "src" "out" "out/train" "out/test"
              (Q2Qc 0.5) demo_fs_with_dirs 0%nat
              ["a.jpg"; "a.xml"; "axml"; "b.jpg"; "c.png"; "notes.txt"])
    as [[s' g'] E];
    [reflexivity|by vm_compute|by repeat constructor|by repeat constructor|].
  destruct (@partition_splits_images demo_random "src" "out" "out/train"
              "out/test" (Q2Qc 0.5) demo_fs_with_dirs 0%nat s' g'
              ["a.jpg"; "a.xml"; "axml"; "b.jpg"; "c.png"; "notes.txt"])
    as (test_set & train_set & s1 & Hlen & Hperm & _);
    [reflexivity|by apply (bool_decide_unpack _)|by vm_compute|exact E|].
  exists s', g', test_set, train_set. split_and!; [done|exact Hperm| |].
  - change (Z.of_nat (length test_set) = 2) in Hlen. lia.
  - apply Permutation_length in Hperm. rewrite length_app in Hperm.
    change (Z.of_nat (length test_set) = 2) in Hlen. simpl in Hperm. lia.
Qed.

End PartitionExamples.

Module ConverterExtras.
Import CocoToTfrecordConverter PyFacts ConverterProofs.

Section Extras.
Context `{Collaborators}.
Implicit Types (st : loop_vars) (a : annotation).

Lemma of_int_zero (z : Z) : of_int z = 0%Qc ↔ z = 0.
Proof. unfold of_int. rewrite <- Z2Qc_inj_0. apply Z2Qc_inj_iff. Qed.

Lemma unpack_bbox_raises (b : list Qc) e :
  unpack_bbox b = Raise e ↔ length b ≠ 4%nat ∧ e = ValueError.
Proof.
  destruct b as [|x [|y [|w [|h [|? ?]]]]]; simpl; split;
    try (by intros [= <-]); try (by intros [_ ->]); try done.
  by intros [? _].
Qed.

(** X1. When the loop body raises, and what: [ValueError] for a box that
    has not four entries; for a box that passes the two tests,
    [ZeroDivisionError] when the image width or height is zero, else
    [KeyError] when the category is not in the index, else the error of
    the mask encoding when masks are asked for.  It raises in no other
    case. *)
Theorem loop_body_raises W Hh cidx inc st a e :
  loop_body W Hh cidx inc st a = Raise e ↔
    (length (ann_bbox a) ≠ 4%nat ∧ e = ValueError)
    ∨ (accepted W Hh a ∧ (W = 0 ∨ Hh = 0) ∧ e = ZeroDivisionError)
    ∨ (accepted W Hh a ∧ W ≠ 0 ∧ Hh ≠ 0
       ∧ cidx !! ann_category_id a = None ∧ e = KeyError)
    ∨ (accepted W Hh a ∧ W ≠ 0 ∧ Hh ≠ 0
       ∧ is_Some (cidx !! ann_category_id a)
       ∧ inc = true ∧ encode_mask Hh W a = Raise e).
Proof.
  destruct (decide (length (ann_bbox a) = 4%nat)) as [Hlen|Hlen].
  2: { unfold loop_body.
       destruct (unpack_bbox (ann_bbox a)) as [b|e'] eqn:Hu.
       - exfalso. apply Hlen.
         by destruct (ann_bbox a) as [|x [|y [|w [|h [|? ?]]]]].
       - apply unpack_bbox_raises in Hu as [_ ->]. simpl. split.
         + intros [= <-]. by left.
         + intros [[_ ->]|[(Ha & _)|[(Ha & _)|(Ha & _)]]]; [done|..];
             exfalso; apply Hlen; unfold accepted in Ha;
             by destruct (ann_bbox a) as [|x [|y [|w [|h [|? ?]]]]]. }
  destruct (decide (rejected W Hh a)) as [Hr|Hr].
  { rewrite (loop_body_rejected _ _ _ _ _ _ Hr).
    pose proof (rejected_not_accepted _ _ _ Hr) as Hna. split; [done|].
    intros [[? _]|[(? & _)|[(? & _)|(? & _)]]]; done. }
  apply accepted_not_rejected in Hr; [|done].
  destruct (loop_body W Hh cidx inc st a) as [st'|e'] eqn:Hb.
  - apply (loop_body_accepted _ _ _ _ _ _ _ Hr) in Hb
      as (HW & HH & cat & masks & Hcat & Hm & _).
    rewrite of_int_zero in HW, HH. split; [done|]. rewrite Hcat.
    intros [[? _]|[(_ & [?|?] & _)|[(_ & _ & _ & ? & _)|(_ & _ & _ & _ & -> & He)]]];
      try done.
    destruct Hm as (m & Hm & _). by rewrite Hm in He.
  - revert Hb. unfold loop_body.
    assert (¬ rejected W Hh a) as Hn by (by apply accepted_not_rejected).
    pose proof Hr as Ha. unfold accepted in Ha.
    destruct (ann_bbox a) as [|x [|y [|w [|h [|? ?]]]]] eqn:Hbox; try done.
    rewrite (rejected_guards _ _ _ _ _ _ _ Hbox) in Hn. simpl.
    apply not_true_is_false, orb_false_iff in Hn as [-> ->].
    unfold truediv.
    destruct (decide (W = 0)) as [->|HW].
    { rewrite !(bool_decide_eq_true_2 (of_int 0 = 0%Qc)) by (by apply of_int_zero).
      simpl. intros [= <-]. split.
      - intros [= <-]. right; left. auto.
      - intros [[? _]|[(_ & _ & ->)|[(_ & ? & _)|(_ & ? & _)]]]; done. }
    rewrite (bool_decide_eq_false_2 (of_int W = 0%Qc)) by (by rewrite of_int_zero).
    simpl.
    destruct (decide (Hh = 0)) as [->|HH].
    { rewrite !(bool_decide_eq_true_2 (of_int 0 = 0%Qc)) by (by apply of_int_zero).
      simpl. intros [= <-]. split.
      - intros [= <-]. right; left. auto.
      - intros [[? _]|[(_ & _ & ->)|[(_ & _ & ? & _)|(_ & _ & ? & _)]]]; done. }
    rewrite (bool_decide_eq_false_2 (of_int Hh = 0%Qc)) by (by rewrite of_int_zero).
    simpl. unfold getitem.
    destruct (cidx !! ann_category_id a) as [cat|] eqn:Hcat; simpl.
    2: { intros [= <-]. split.
         - intros [= <-]. right; right; left. auto.
         - intros [[? _]|[(_ & [?|?] & _)|[(_ & _ & _ & _ & ->)|(_ & _ & _ & [? ?] & _)]]];
             done. }
    destruct inc; simpl; [|done].
    destruct (encode_mask Hh W a) as [m|em] eqn:Hm; simpl; [done|].
    intros [= <-]. split.
    + intros [= <-]. right; right; right. split_and!; eauto.
    + intros [[? _]|[(_ & [?|?] & _)|[(_ & _ & _ & ? & _)|(_ & _ & _ & _ & _ & [= ->])]]];
        done.
Qed.

(** X2. [create_tf_example] gives up at the first failure: an error of
    the file read or of the image decoder is the function's error
    whatever the annotations are, and otherwise the error of the first
    annotation whose loop body raises is, the annotations after it not
    being looked at. *)
Theorem create_tf_example_first_error im image_dir cidx inc :
  (∀ anns e,
      gfile_read (path_join image_dir (img_file_name im)) = Raise e →
      create_tf_example im anns image_dir cidx inc = Raise e)
  ∧ (∀ anns jpg e,
      gfile_read (path_join image_dir (img_file_name im)) = Ok jpg →
      image_open jpg = Raise e →
      create_tf_example im anns image_dir cidx inc = Raise e)
  ∧ (∀ pre a post jpg st1 e,
      gfile_read (path_join image_dir (img_file_name im)) = Ok jpg →
      is_Ok (image_open jpg) →
      annotations_loop (img_width im) (img_height im) cidx inc loop_init pre
      = Ok st1 →
      loop_body (img_width im) (img_height im) cidx inc st1 a = Raise e →
      create_tf_example im (pre ++ a :: post) image_dir cidx inc = Raise e).
Proof.
  unfold create_tf_example. split_and!.
  - by intros anns e ->.
  - intros anns jpg e -> Ho. simpl. by rewrite Ho.
  - intros pre a post jpg st1 e -> [[] Ho] Hpre Hb. simpl. rewrite Ho. simpl.
    rewrite annotations_loop_app, Hpre. simpl. by rewrite Hb.
Qed.

Lemma annotations_loop_entries W Hh cidx inc anns st st' :
  annotations_loop W Hh cidx inc st anns = Ok st' →
  ∃ names masks,
    category_names st' = category_names st ++ names
    ∧ encoded_mask_png st' = encoded_mask_png st ++ masks
    ∧ Forall2 (fun a name =>
         ∃ cat, cidx !! ann_category_id a = Some cat
                ∧ name = encode_utf8 (cat_name cat))
        (filter (accepted W Hh) anns) names
    ∧ if inc
      then Forall2 (fun a m => encode_mask Hh W a = Ok m)
             (filter (accepted W Hh) anns) masks
      else masks = [].
Proof.
  revert st. induction anns as [|a anns IH]; intros st Hl; simpl in Hl.
  - injection Hl as <-. exists [], []. rewrite !app_nil_r, filter_nil.
    split_and!; [done..|constructor|]. destruct inc; [constructor|done].
  - apply bind_Ok in Hl as (st1 & Hb & Hl).
    apply IH in Hl as (names & masks & Hn & Hm & Hnames & Hmasks).
    destruct (decide (rejected W Hh a)) as [Hr|Hr].
    + rewrite (loop_body_rejected _ _ _ _ _ _ Hr) in Hb. injection Hb as <-.
      rewrite (filter_cons_False _ _ _ (rejected_not_accepted _ _ _ Hr)).
      by exists names, masks.
    + assert (accepted W Hh a) as Ha.
      { apply accepted_not_rejected; [|done]. unfold loop_body in Hb.
        by destruct (ann_bbox a) as [|x [|y [|w [|h [|? ?]]]]]. }
      apply (loop_body_accepted _ _ _ _ _ _ _ Ha) in Hb
        as (_ & _ & cat & masks1 & Hcat & Hm1 & ->).
      rewrite (filter_cons_True _ _ _ Ha). simpl in Hn, Hm.
      exists (encode_utf8 (cat_name cat) :: names).
      destruct inc.
      * destruct Hm1 as (m & Hmask & ->). exists (m :: masks).
        rewrite Hn, Hm, <- !app_assoc. split_and!; [done..| |].
        -- constructor; [by exists cat|done].
        -- by constructor.
      * subst masks1 masks. exists []. rewrite Hn, Hm, <- !app_assoc.
        split_and!; [done..| |done]. constructor; [by exists cat|done].
Qed.

(** X3. The sequences of a record are aligned entry by entry: the i-th
    is_crowd flag, area, class text and (with masks) mask all come from
    the i-th accepted annotation, in the order of the input list; the
    class text is the name the category index gives for its category. *)
Theorem record_entries_are_aligned im anns image_dir cidx inc key ex n :
  create_tf_example im anns image_dir cidx inc = Ok (key, ex, n) →
  let kept := filter (accepted (img_width im) (img_height im)) anns in
  ints ex "image/object/is_crowd" = Some (ann_iscrowd <$> kept)
  ∧ floats ex "image/object/area" = Some (ann_area <$> kept)
  ∧ (∃ names,
       byteses ex "image/object/class/text" = Some names
       ∧ Forall2 (fun a name =>
            ∃ cat, cidx !! ann_category_id a = Some cat
                   ∧ name = encode_utf8 (cat_name cat)) kept names)
  ∧ (inc = true →
       ∃ masks,
         byteses ex "image/object/mask" = Some masks
         ∧ Forall2 (fun a m =>
              encode_mask (img_height im) (img_width im) a = Ok m) kept masks).
Proof.
  intros Hc kept.
  apply create_tf_example_Ok in Hc as (jpg & st & _ & Hl & _ & -> & _).
  pose proof (annotations_loop_post _ _ _ _ _ _ _ Hl) as [].
  apply annotations_loop_entries in Hl as (names & masks & Hn & Hm & Hnames & Hmasks).
  rewrite feature_dict_is_crowd, feature_dict_area, feature_dict_text.
  simpl in *. split_and!.
  - by rewrite post_is_crowd0.
  - by rewrite post_area0.
  - exists names. by rewrite Hn.
  - intros ->. exists masks. unfold byteses. rewrite feature_dict_mask.
    by rewrite Hm.
Qed.

(** X4. What a record says about its image: the encoded bytes are those
    of the file [image_dir/file_name], the key the function returns and
    stores is their SHA-256, height, width, file name and id are the
    descriptor's, and the format is stated as jpeg whatever the file
    holds. *)
Theorem record_describes_image im anns image_dir cidx inc key ex n :
  create_tf_example im anns image_dir cidx inc = Ok (key, ex, n) →
  ∃ encoded_jpg,
    gfile_read (path_join image_dir (img_file_name im)) = Ok encoded_jpg
    ∧ key = sha256_hexdigest encoded_jpg
    ∧ byteses ex "image/encoded" = Some [encoded_jpg]
    ∧ byteses ex "image/key/sha256" = Some [encode_utf8 key]
    ∧ ints ex "image/height" = Some [img_height im]
    ∧ ints ex "image/width" = Some [img_width im]
    ∧ byteses ex "image/filename" = Some [encode_utf8 (img_file_name im)]
    ∧ byteses ex "image/source_id" = Some [encode_utf8 (pretty (img_id im))]
    ∧ byteses ex "image/format" = Some [encode_utf8 "jpeg"].
Proof.
  intros Hc.
  apply create_tf_example_Ok in Hc as (jpg & st & Hread & _ & -> & -> & _).
  exists jpg. split_and!; [done|done|..];
    unfold floats, ints, byteses, feature_dict; destruct inc;
    repeat (rewrite lookup_insert_ne by discriminate);
    by rewrite lookup_insert_eq.
Qed.

(** *** The annotation index, lines 198-214 *)

Lemma index_annotation_lookup (m : gmap Z (list annotation)) a id :
  index_annotation m a !! id
  = if decide (ann_image_id a = id)
    then Some (default [] (m !! id) ++ [a])
    else m !! id.
Proof.
  unfold index_annotation. case_decide as Hid.
  - subst id. destruct (m !! ann_image_id a) as [l|] eqn:Hm.
    + by rewrite lookup_alter_eq, Hm.
    + by rewrite lookup_alter_eq, lookup_insert_eq.
  - rewrite lookup_alter_ne by done.
    destruct (m !! ann_image_id a); [done|]. by rewrite lookup_insert_ne.
Qed.

Lemma index_annotation_fold anns :
  ∀ (m : gmap Z (list annotation)) id,
    fold_left index_annotation anns m !! id
    = match m !! id, filter (fun a => ann_image_id a = id) anns with
      | Some l0, l => Some (l0 ++ l)
      | None, [] => None
      | None, l => Some l
      end.
Proof.
  induction anns as [|a anns IH]; intros m id; simpl.
  - rewrite filter_nil. destruct (m !! id); [by rewrite app_nil_r|done].
  - rewrite IH, index_annotation_lookup.
    destruct (decide (ann_image_id a = id)) as [Hid|Hid].
    + rewrite (filter_cons_True (fun a => ann_image_id a = id) a anns Hid).
      destruct (m !! id); simpl; by rewrite <- ?app_assoc.
    + by rewrite (filter_cons_False (fun a => ann_image_id a = id) a anns Hid).
Qed.

Lemma index_image_fold images :
  ∀ c (m : gmap Z (list annotation)) id,
    (fold_left index_image images (c, m)).2 !! id
    = match m !! id with
      | Some l => Some l
      | None => if decide (id ∈ img_id <$> images) then Some [] else None
      end.
Proof.
  induction images as [|im images IH]; intros c m id.
  - simpl. by destruct (m !! id).
  - change (fold_left index_image (im :: images) (c, m))
      with (fold_left index_image images (index_image (c, m) im)).
    unfold index_image.
    destruct (m !! img_id im) as [l|] eqn:Him; rewrite IH.
    + destruct (m !! id) eqn:Hid; [done|].
      assert (id ≠ img_id im) as Hne by congruence.
      apply decide_ext. rewrite fmap_cons, elem_of_cons. tauto.
    + destruct (decide (id = img_id im)) as [->|Hne].
      * rewrite lookup_insert_eq, Him.
        rewrite decide_True; [done|]. rewrite fmap_cons. by left.
      * rewrite lookup_insert_ne by done. destruct (m !! id); [done|].
        apply decide_ext. rewrite fmap_cons, elem_of_cons. tauto.
Qed.

Lemma annotations_index_lookup images annotations id :
  (fold_left index_image images (0, fold_left index_annotation annotations ∅)).2 !! id
  = if decide (id ∈ img_id <$> images
               ∨ filter (fun a => ann_image_id a = id) annotations ≠ [])
    then Some (filter (fun a => ann_image_id a = id) annotations)
    else None.
Proof.
  rewrite index_image_fold, index_annotation_fold, lookup_empty.
  destruct (filter (fun a => ann_image_id a = id) annotations) as [|a l].
  - apply decide_ext. tauto.
  - rewrite decide_True; [done|]. by right.
Qed.

(** X5. The annotation index groups the annotations by image and keeps
    their document order: every image of the document has an entry, the
    list of the annotations that carry its id (empty when there is none),
    so that the look-up of line 223 cannot fail; and an id of no image has
    an entry only when some annotation carries it. *)
Theorem annotations_index_groups_by_image images annotations :
  let aidx :=
    (fold_left index_image images (0, fold_left index_annotation annotations ∅)).2 in
  (∀ im, im ∈ images →
     getitem aidx (img_id im)
     = Ok (filter (fun a => ann_image_id a = img_id im) annotations))
  ∧ (∀ id l, aidx !! id = Some l →
       l = filter (fun a => ann_image_id a = id) annotations)
  ∧ (∀ id, id ∉ img_id <$> images →
       (∀ a, a ∈ annotations → ann_image_id a ≠ id) →
       aidx !! id = None).
Proof.
  intros aidx. subst aidx. split_and!.
  - intros im Him. apply getitem_Ok. rewrite annotations_index_lookup.
    rewrite decide_True; [done|]. left. by apply list_elem_of_fmap_2.
  - intros id l. rewrite annotations_index_lookup. case_decide; [|done].
    by intros [= <-].
  - intros id Hid Hann. rewrite annotations_index_lookup.
    rewrite decide_False; [done|]. intros [?|Hne]; [done|]. apply Hne.
    clear -Hann. induction annotations as [|a l IH]; [done|].
    rewrite filter_cons_False; [|by apply Hann; left].
    apply IH. intros a' Ha'. apply Hann. by right.
Qed.

(** *** The counters of a run, lines 208-229 *)

Lemma index_annotation_dom anns :
  ∀ m : gmap Z (list annotation),
    dom (fold_left index_annotation anns m)
    = dom m ∪ list_to_set (ann_image_id <$> anns).
Proof.
  induction anns as [|a anns IH]; intros m; simpl.
  - set_solver.
  - rewrite IH. unfold index_annotation.
    destruct (m !! ann_image_id a) eqn:Hm.
    + rewrite dom_alter_L. apply elem_of_dom_2 in Hm. set_solver.
    + rewrite dom_alter_L, dom_insert_L. set_solver.
Qed.

Lemma index_image_count images :
  ∀ c (m : gmap Z (list annotation)),
    (fold_left index_image images (c, m)).1
    = c + Z.of_nat (size (list_to_set (img_id <$> images) ∖ dom m : gset Z)).
Proof.
  induction images as [|im images IH]; intros c m.
  - simpl. rewrite difference_disjoint_L by set_solver. rewrite size_empty. lia.
  - change (fold_left index_image (im :: images) (c, m))
      with (fold_left index_image images (index_image (c, m) im)).
    unfold index_image. rewrite fmap_cons, list_to_set_cons.
    destruct (m !! img_id im) as [l|] eqn:Him; rewrite IH.
    + apply elem_of_dom_2 in Him. do 3 f_equal. set_solver.
    + apply not_elem_of_dom in Him. rewrite dom_insert_L.
      replace (({[img_id im]} ∪ list_to_set (img_id <$> images)) ∖ dom m : gset Z)
        with ({[img_id im]} ∪ (list_to_set (img_id <$> images)
                                ∖ ({[img_id im]} ∪ dom m)) : gset Z).
      * pose proof (size_union (C:=gset Z) {[img_id im]}
            (list_to_set (img_id <$> images) ∖ ({[img_id im]} ∪ dom m))) as Hsz.
        rewrite Hsz by set_solver. rewrite size_singleton. lia.
      * apply set_eq. intros x. rewrite !elem_of_union, !elem_of_difference,
          !elem_of_union, !elem_of_singleton.
        destruct (decide (x = img_id im)) as [->|]; naive_solver.
Qed.

Lemma images_loop_total aidx image_dir cidx inc S images :
  ∀ idx total out out' total',
    images_loop aidx image_dir cidx inc S idx total out images = Ok (out', total') →
    total' = total
      + Z.of_nat (sum_list ((fun im =>
            length (filter (rejected (img_width im) (img_height im))
                      (default [] (aidx !! img_id im)))) <$> images)).
Proof.
  induction images as [|im images IH]; intros idx total out out' total' Hl;
    simpl in Hl.
  - injection Hl as <- <-. simpl. lia.
  - apply bind_Ok in Hl as (anns & Hanns%getitem_Ok & Hl).
    apply bind_Ok in Hl as ([[key ex] n] & Hex & Hl).
    rewrite bind_Ok in Hl. destruct Hl as (shard_idx & _ & Hl).
    rewrite bind_Ok in Hl. destruct Hl as (out1 & _ & Hl).
    apply IH in Hl as ->.
    apply create_tf_example_Ok in Hex as (_ & st & _ & Hloop & _ & _ & ->).
    apply annotations_loop_post in Hloop as [].
    rewrite fmap_cons. simpl. rewrite Hanns. simpl.
    rewrite post_skipped0. simpl. lia.
Qed.

(** X6. The two numbers a run logs: the count of images missing
    annotations is the number of distinct image ids that no annotation
    carries (an id listed twice counts once), and the total of skipped
    annotations is the sum, over the images in the order written, of the
    rejected annotations among those that carry the image's id. *)
Theorem run_counters gt image_dir inc S images annotations categories
    shards missing skipped :
  gt = Groundtruth (Some images) (Some annotations) (Some categories) →
  _create_tf_record_from_coco_annotations gt image_dir inc S
  = Ok (shards, missing, skipped) →
  missing = Z.of_nat (size (list_to_set (img_id <$> images)
                            ∖ list_to_set (ann_image_id <$> annotations) : gset Z))
  ∧ skipped = Z.of_nat (sum_list ((fun im =>
        length (filter (rejected (img_width im) (img_height im))
                  (filter (fun a => ann_image_id a = img_id im) annotations)))
        <$> images)).
Proof.
  intros -> Hrun. unfold _create_tf_record_from_coco_annotations in Hrun.
  simpl in Hrun.
  pose proof (index_image_count images 0 (fold_left index_annotation annotations ∅))
    as Hcount.
  pose proof (annotations_index_lookup images annotations) as Hlookup.
  destruct (fold_left index_image images (0, fold_left index_annotation annotations ∅))
    as [missing0 aidx] eqn:Hidx. simpl in Hcount, Hlookup.
  apply bind_Ok in Hrun as ([out total] & Hl & [= <- <- <-]).
  split.
  - rewrite Hcount, index_annotation_dom, dom_empty_L, union_empty_l_L. lia.
  - apply images_loop_total in Hl as ->. rewrite Z.add_0_l. do 2 f_equal.
    apply list_fmap_ext. intros i im Him. rewrite Hlookup.
    rewrite decide_True; [done|]. left.
    apply list_elem_of_fmap_2. by eapply list_elem_of_lookup_2.
Qed.

Lemma list_index_nil {A} (i : Z) : list_index (@nil A) i = Raise IndexError.
Proof.
  unfold list_index. simpl.
  rewrite !bool_decide_eq_false_2 by lia. done.
Qed.

(** X7. A shard count that is not positive: with no image the run ends
    well, with no shard at all; with at least one image it cannot end, and
    once the first record is built it raises [ZeroDivisionError] for zero
    shards ([idx % num_shards]) and [IndexError] for a negative count (no
    handle was opened). *)
Theorem nonpositive_shard_count gt image_dir inc S images annotations categories :
  gt = Groundtruth (Some images) (Some annotations) (Some categories) →
  S ≤ 0 →
  let cidx := create_category_index categories in
  let aidx :=
    (fold_left index_image images (0, fold_left index_annotation annotations ∅)).2 in
  (images = [] →
   ∃ missing, _create_tf_record_from_coco_annotations gt image_dir inc S
              = Ok ([], missing, 0))
  ∧ (images ≠ [] →
     ¬ is_Ok (_create_tf_record_from_coco_annotations gt image_dir inc S))
  ∧ (∀ im rest, images = im :: rest →
       is_Ok (record_of aidx image_dir cidx inc im) →
       _create_tf_record_from_coco_annotations gt image_dir inc S
       = Raise (if decide (S = 0) then ZeroDivisionError else IndexError)).
Proof.
  intros -> HS cidx aidx.
  unfold _create_tf_record_from_coco_annotations. simpl. fold cidx.
  destruct (fold_left index_image images (0, fold_left index_annotation annotations ∅))
    as [missing0 aidx0] eqn:Hidx. simpl in aidx. subst aidx.
  unfold open_sharded_output_tfrecords. rewrite Z2Nat.nonpos by done. simpl.
  assert (∀ im rest, images = im :: rest →
            ∀ r, images_loop aidx0 image_dir cidx inc S 0 0 [] images = r →
            (is_Ok (record_of aidx0 image_dir cidx inc im) →
             r = Raise (if decide (S = 0) then ZeroDivisionError else IndexError))
            ∧ ¬ is_Ok r) as Hstep.
  { intros im rest -> r <-. simpl. unfold record_of.
    destruct (getitem aidx0 (img_id im)) as [anns|e]; simpl;
      [|split; [by intros [? ?]|by intros [? ?]]].
    destruct (create_tf_example im anns image_dir cidx inc) as [[[key ex] n]|e];
      simpl; [|split; [by intros [? ?]|by intros [? ?]]].
    unfold mod_. case_bool_decide as HS0; simpl.
    - rewrite decide_True by done. split; [done|by intros [? ?]].
    - rewrite decide_False by done. split; [done|by intros [? ?]]. }
  split_and!.
  - intros ->. simpl. by exists missing0.
  - intros Hne [r Hr]. destruct images as [|im rest]; [done|].
    destruct (Hstep im rest eq_refl _ eq_refl) as [_ Hno].
    apply Hno. apply bind_Ok in Hr as (v & Hv & _). by exists v.
  - intros im rest Himages Hrec.
    destruct (Hstep im rest Himages _ eq_refl) as [Hr _].
    by rewrite (Hr Hrec).
Qed.

(** A document that lacks one of its three top-level keys makes the run
    raise [KeyError]; for [annotations] too, whose presence line 199 tests
    only to log a message before line 203 reads it regardless. *)
Lemma missing_top_level_key gt image_dir inc S :
  gt_images gt = None ∨ gt_categories gt = None ∨ gt_annotations gt = None →
  _create_tf_record_from_coco_annotations gt image_dir inc S = Raise KeyError.
Proof.
  unfold _create_tf_record_from_coco_annotations.
  destruct (gt_images gt), (gt_categories gt), (gt_annotations gt); simpl;
    intros [?|[?|?]]; done.
Qed.

Lemma concat_alter_app (out : list (list bytes)) (i : nat) (r : bytes) :
  (i < length out)%nat →
  concat (alter (fun w => w ++ [r]) i out) ≡ₚ r :: concat out.
Proof.
  revert i. induction out as [|w out IH]; intros i Hi; simpl in Hi; [lia|].
  destruct i as [|i].
  - change (concat (alter (fun w => w ++ [r]) 0%nat (w :: out)))
      with ((w ++ [r]) ++ concat out).
    simpl. rewrite <- app_assoc. simpl. by rewrite <- Permutation_middle.
  - change (concat (alter (fun w => w ++ [r]) (Datatypes.S i) (w :: out)))
      with (w ++ concat (alter (fun w => w ++ [r]) i out)).
    simpl. rewrite IH by lia. by rewrite <- Permutation_middle.
Qed.

Lemma images_loop_concat aidx image_dir cidx inc S images :
  ∀ idx total out out' total',
    images_loop aidx image_dir cidx inc S idx total out images = Ok (out', total') →
    ∃ records,
      mapR (record_of aidx image_dir cidx inc) images = Ok records
      ∧ concat out' ≡ₚ concat out ++ records
      ∧ length out' = length out.
Proof.
  induction images as [|im images IH]; intros idx total out out' total' Hl;
    simpl in Hl.
  - injection Hl as <- <-. exists []. by rewrite app_nil_r.
  - apply bind_Ok in Hl as (anns & Hanns & Hl).
    apply bind_Ok in Hl as ([[key ex] n] & Hex & Hl).
    rewrite bind_Ok in Hl. destruct Hl as (shard_idx & _ & Hl).
    rewrite bind_Ok in Hl. destruct Hl as (out1 & Hw & Hl).
    unfold shard_write in Hw. apply bind_Ok in Hw as (i & Hi & [= <-]).
    assert (i < length out)%nat as Hlt.
    { unfold list_index in Hi. repeat case_bool_decide; simplify_eq; lia. }
    apply IH in Hl as (records & Hrec & Hperm & Hlen).
    assert (record_of aidx image_dir cidx inc im = Ok (SerializeToString ex)) as Hr.
    { unfold record_of. rewrite Hanns. simpl. by rewrite Hex. }
    exists (SerializeToString ex :: records). simpl. rewrite Hr. simpl.
    rewrite Hrec. simpl. split_and!; [done| |by rewrite Hlen, length_alter].
    rewrite Hperm, concat_alter_app by done. by rewrite <- Permutation_middle.
Qed.

(** X8. No record is lost and none is written twice: when a run ends
    well, the contents of all its shards taken together are, up to order,
    the records of the document's images, one for each entry of the image
    list. *)
Theorem every_record_is_written_once gt image_dir inc S
    images annotations categories shards missing skipped :
  gt = Groundtruth (Some images) (Some annotations) (Some categories) →
  _create_tf_record_from_coco_annotations gt image_dir inc S
  = Ok (shards, missing, skipped) →
  let cidx := create_category_index categories in
  let aidx :=
    (fold_left index_image images (0, fold_left index_annotation annotations ∅)).2 in
  ∃ records,
    mapR (record_of aidx image_dir cidx inc) images = Ok records
    ∧ length records = length images
    ∧ concat shards ≡ₚ records.
Proof.
  intros -> Hrun cidx aidx.
  unfold _create_tf_record_from_coco_annotations in Hrun. simpl in Hrun.
  fold cidx in Hrun.
  destruct (fold_left index_image images (0, fold_left index_annotation annotations ∅))
    as [missing0 aidx0] eqn:Hidx. simpl in aidx. subst aidx.
  apply bind_Ok in Hrun as ([out total] & Hl & [= <- <- <-]).
  apply images_loop_concat in Hl as (records & Hrec & Hperm & _).
  exists records. split_and!; [done| |].
  - apply mapR_Ok in Hrec. symmetry. by eapply Forall2_length.
  - rewrite Hperm. unfold open_sharded_output_tfrecords.
    assert (concat (replicate (Z.to_nat S) (@nil bytes)) = []) as ->; [|done].
    induction (Z.to_nat S); [done|]. simpl. done.
Qed.

End Extras.

Section MainExtras.
Context `{MainCollaborators}.

Lemma convert_file_Ok annotations_file image_dir output_path inc S r :
  convert_file annotations_file image_dir output_path inc S = Ok r →
  ∃ gt shards missing skipped,
    json_load annotations_file = Ok gt
    ∧ _create_tf_record_from_coco_annotations gt image_dir inc S
      = Ok (shards, missing, skipped)
    ∧ r = (output_path, shards).
Proof.
  unfold convert_file. intros Hc.
  apply bind_Ok in Hc as (gt & Hgt & Hc).
  apply bind_Ok in Hc as ([[shards missing] skipped] & Hrun & [= <-]).
  by exists gt, shards, missing, skipped.
Qed.

Lemma run_shard_count gt image_dir inc S shards missing skipped :
  _create_tf_record_from_coco_annotations gt image_dir inc S
  = Ok (shards, missing, skipped) →
  length shards = Z.to_nat S.
Proof.
  unfold _create_tf_record_from_coco_annotations. intros Hrun.
  apply bind_Ok in Hrun as (images & _ & Hrun).
  apply bind_Ok in Hrun as (categories & _ & Hrun).
  apply bind_Ok in Hrun as (annotations & _ & Hrun).
  destruct (fold_left index_image images (0, fold_left index_annotation annotations ∅))
    as [missing0 aidx0].
  apply bind_Ok in Hrun as ([out total] & Hl & [= <- <- <-]).
  apply images_loop_concat in Hl as (_ & _ & _ & ->).
  unfold open_sharded_output_tfrecords. by rewrite length_replicate.
Qed.

(** X9. [main] converts the training split and then the validation
    split, each into ten shards under [output_dir]: when it ends well the
    two outputs are named [coco_train.record] and [coco_val.record] in
    that directory and have ten shards each; and when the training
    conversion raises, [main] raises that error and the validation split
    is not converted. *)
Theorem main_converts_train_then_val args :
  (∀ train_path train val_path val,
      main args = Ok ((train_path, train), (val_path, val)) →
      train_path = path_join (arg_output_dir args) "coco_train.record"
      ∧ val_path = path_join (arg_output_dir args) "coco_val.record"
      ∧ length train = 10%nat ∧ length val = 10%nat)
  ∧ (∀ e,
      (gfile_isdir (arg_output_dir args) = true
       ∨ is_Ok (gfile_makedirs (arg_output_dir args))) →
      convert_file (arg_train_annotations_file args) (arg_train_image_dir args)
        (path_join (arg_output_dir args) "coco_train.record")
        (truthy (arg_include_masks args)) 10 = Raise e →
      main args = Raise e).
Proof.
  unfold main. split.
  - intros train_path train val_path val Hm.
    apply bind_Ok in Hm as (? & _ & Hm).
    apply bind_Ok in Hm as (rt & Ht & Hm).
    apply bind_Ok in Hm as (rv & Hv & [= -> ->]).
    apply convert_file_Ok in Ht as (gt1 & s1 & m1 & k1 & _ & Hr1 & [= -> ->]).
    apply convert_file_Ok in Hv as (gt2 & s2 & m2 & k2 & _ & Hr2 & [= -> ->]).
    apply run_shard_count in Hr1, Hr2. by rewrite Hr1, Hr2.
  - intros e Hdir Ht.
    assert ((if negb (gfile_isdir (arg_output_dir args))
             then gfile_makedirs (arg_output_dir args) else Ok ()) = Ok ()) as ->.
    { destruct Hdir as [->|[[] ->]]; [done|].
      by destruct (gfile_isdir (arg_output_dir args)). }
    simpl. by rewrite Ht.
Qed.

(** X10. The switch [--include_masks] cannot be turned off by naming a
    value: given any non-empty string, [False] included, [main] does what
    it does by default, that is, with masks. *)
Theorem include_masks_given_is_on train_dir val_dir train_file val_file out s :
  s ≠ EmptyString →
  main (Arguments_ (FlagGiven s) train_dir val_dir train_file val_file out)
  = main (Arguments_ FlagDefault train_dir val_dir train_file val_file out).
Proof.
  intros Hs. unfold main. simpl. by rewrite bool_decide_eq_false_2.
Qed.

End MainExtras.
End ConverterExtras.
